(** * ceph_crush: building a CRUSH hierarchy from a location mapping

    A shallow embedding of [library/ceph_crush.py].  The module walks the
    fixed list [crush_bucket_types]; for every level that is a key of the
    location dictionary it runs [ceph osd crush add-bucket], and from the
    second present level on also [ceph osd crush move].

    - the location dictionary is a [gmap string string];
    - [module.run_command] is an external collaborator: a state transformer
      on an abstract [World] that answers an argument vector with an exit
      code, stdout and stderr;
    - [module.exit_json] and [module.fail_json] leave the interpreter, as
      Python's [SystemExit] does, so they are modelled as signals of an
      error monad next to the Python exceptions the code can raise;
    - every command handed to [run_command] is recorded in a trace. *)

From Stdlib Require Import ZArith.
From Stdlib.Strings Require Import Byte.
From stdpp Require Import gmap strings list fin_maps.

(** ** Values *)

(** [run_command(..., encoding=None)] returns raw bytes. *)
Definition bytes : Type := list Byte.byte.

(** An argument vector: one string per argument, no shell involved. *)
Definition argv : Type := list string.

(** [rc, out, err] as returned by [run_command]. *)
Definition cmd_result : Type := (Z * bytes * bytes)%type.

(** The values stored in the result dictionary.  [VTime] and [VDelta] stand
    for [str(datetime)] and [str(timedelta)], kept symbolic. *)
Inductive value : Type :=
  | VStr (s : string)
  | VInt (z : Z)
  | VBytes (b : bytes)
  | VTime (t : Z)
  | VDelta (d : Z).

(** The result dictionary.  The key [cmd] is absent from the initial
    dictionary of [run_module], hence the option. *)
Record result : Type := mkResult {
  changed : bool;
  cmd : option argv;
  start : value;
  end_ : value;
  delta : value;
  rc : value;
  stdout : value;
  stderr : value
}.

(** [result["stdout"] = v] and [result['rc'] = v]. *)
Definition set_stdout (v : value) (r : result) : result :=
  mkResult (changed r) (cmd r) (start r) (end_ r) (delta r) (rc r) v (stderr r).

Definition set_rc (v : value) (r : result) : result :=
  mkResult (changed r) (cmd r) (start r) (end_ r) (delta r) v (stdout r) (stderr r).

(** What can interrupt the straight-line execution: the two Python errors
    the code could raise, and the two ways of leaving through the module
    object. *)
Inductive signal : Type :=
  | KeyError (k : string)
  | UnboundLocalError (v : string)
  | ExitJson (r : result)
  | FailJson (msg : string) (r : result).

Inductive res (A : Type) : Type :=
  | Ok (a : A)
  | Raise (s : signal).
Arguments Ok {A} a.
Arguments Raise {A} s.

(** ** Pure helpers of the Python runtime *)

(** [k in d.keys()]. *)
Definition contains (d : gmap string string) (k : string) : bool :=
  match d !! k with
  | Some _ => true
  | None => false
  end.

(** Truth value of [previous_bucket_type]: [None] and the empty string are
    false. *)
Definition truthy (o : option string) : bool :=
  match o with
  | Some s => negb (String.eqb s "")
  | None => false
  end.

(** [b.rstrip(chars)] on bytes: drop the longest suffix made of bytes of
    [chars]. *)
Fixpoint lstrip (chars b : bytes) : bytes :=
  match b with
  | [] => []
  | x :: b' => if existsb (Byte.eqb x) chars then lstrip chars b' else b
  end.

Definition rstrip (chars b : bytes) : bytes := rev (lstrip chars (rev b)).

(** The bytes literal [b"\r\n"]. *)
Definition crlf : bytes := [Byte.x0d; Byte.x0a].

(** ** The module's constants and pure functions *)

Definition crush_bucket_types : list string :=
  [ "host"; "chassis"; "rack"; "row"; "pdu";
    "pod"; "room"; "datacenter"; "region"; "root" ].

Definition generate_cmd (cluster subcommand bucket bucket_type : string) : argv :=
  [ "ceph"; "--cluster"; cluster; "osd"; "crush";
    subcommand; bucket; bucket_type ].

(** The dictionary [run_module] starts from. *)
Definition initial_result : result :=
  mkResult false None (VStr "") (VStr "") (VStr "") (VStr "") (VStr "") (VStr "").

Definition msg_two_buckets : string := "You must specify at least 2 buckets.".
Definition msg_no_host : string := "You must specify a 'host' bucket.".
Definition msg_invalid_others : string :=
  "It seems a 'host' bucket was specified but the other bucket types are invalid".
Definition msg_no_valid_type : string :=
  "No valid CRUSH bucket type found, valid buckets can be found at http://docs.ceph.com/docs/master/rados/operations/crush-map/#crush-structure".

(** Lines 141-144 of [run_module]: the loop that looks for a recognised
    level other than [host]. *)
Definition other_type_marker (location : gmap string string) : option string :=
  fold_left
    (fun previous_bucket_type crush_bucket_type =>
       if contains location crush_bucket_type
          && negb (String.eqb crush_bucket_type "host")
       then Some "Ok"
       else previous_bucket_type)
    crush_bucket_types None.

(** ** The effectful part *)

Section Executor.

(** The cluster and the clock behind [module.run_command] and
    [datetime.datetime.now]. *)
Variable World : Type.
Variable run_command : argv -> World -> cmd_result * World.
Variable now : World -> Z.

(** The machine state: the outside world and the commands run so far,
    oldest first, each with the answer it got. *)
Record machine : Type := mkMachine {
  world : World;
  trace : list (argv * cmd_result)
}.

Definition M (A : Type) : Type := machine -> res A * machine.

Definition ret {A : Type} (a : A) : M A := fun st => (Ok a, st).

Definition raise {A : Type} (s : signal) : M A := fun st => (Raise s, st).

Definition bind {A B : Type} (m : M A) (k : A -> M B) : M B :=
  fun st =>
    match m st with
    | (Ok a, st') => k a st'
    | (Raise s, st') => (Raise s, st')
    end.

Notation "x <- m ;; k" := (bind m (fun x => k))
  (at level 100, m at next level, k at level 200, right associativity).

(** [module.run_command(cmd, encoding=None)]. *)
Definition call_run_command (c : argv) : M cmd_result :=
  fun st =>
    let (r, w') := run_command c (world st) in
    (Ok r, mkMachine w' (trace st ++ [(c, r)])).

(** [datetime.datetime.now()]. *)
Definition call_now : M Z := fun st => (Ok (now (world st)), st).

(** [d[k]]. *)
Definition subscript (d : gmap string string) (k : string) : M string :=
  match d !! k with
  | Some v => ret v
  | None => raise (KeyError k)
  end.

(** Reading a local variable that may not have been assigned yet. *)
Definition read_local {A : Type} (name : string) (v : option A) : M A :=
  match v with
  | Some a => ret a
  | None => raise (UnboundLocalError name)
  end.

Definition exit_json {A : Type} (r : result) : M A := raise (ExitJson r).

Definition fail_json {A : Type} (msg : string) (r : result) : M A :=
  raise (FailJson msg r).

(** [for x in xs: body], threading the local variables. *)
Fixpoint for_each {A S : Type} (xs : list A) (body : A -> S -> M S) (s : S) : M S :=
  match xs with
  | [] => ret s
  | x :: xs' => s' <- body x s ;; for_each xs' body s'
  end.

(** The local variables of [create_and_move_buckets]; [None] is an
    unassigned name, except for [previous_bucket_type] where it is the
    Python value [None]. *)
Record locals : Type := mkLocals {
  l_rc : option Z;
  l_cmd : option argv;
  l_out : option bytes;
  l_err : option bytes;
  previous_bucket_type : option string
}.

Definition initial_locals : locals := mkLocals None None None None None.

(** The body of the loop at lines 85-91. *)
Definition loop_body (cluster : string) (osd_crush_location : gmap string string)
    (crush_bucket_type : string) (lv : locals) : M locals :=
  if contains osd_crush_location crush_bucket_type then
    name <- subscript osd_crush_location crush_bucket_type ;;
    let cmd1 := generate_cmd cluster "add-bucket" name crush_bucket_type in
    r1 <- call_run_command cmd1 ;;
    let '(rc1, out1, err1) := r1 in
    if truthy (previous_bucket_type lv) then
      child <- subscript osd_crush_location
                 (default "" (previous_bucket_type lv)) ;;
      parent <- subscript osd_crush_location crush_bucket_type ;;
      let cmd2 := generate_cmd cluster "move" child
                    (crush_bucket_type +:+ "=" +:+ parent) in
      r2 <- call_run_command cmd2 ;;
      let '(rc2, out2, err2) := r2 in
      ret (mkLocals (Some rc2) (Some cmd2) (Some out2) (Some err2)
             (Some crush_bucket_type))
    else
      ret (mkLocals (Some rc1) (Some cmd1) (Some out1) (Some err1)
             (Some crush_bucket_type))
  else ret lv.

Definition create_and_move_buckets (cluster : string)
    (osd_crush_location : gmap string string)
    : M (Z * argv * bytes * bytes * option string) :=
  lv <- for_each crush_bucket_types
          (loop_body cluster osd_crush_location) initial_locals ;;
  rc1 <- read_local "rc" (l_rc lv) ;;
  cmd1 <- read_local "cmd" (l_cmd lv) ;;
  out1 <- read_local "out" (l_out lv) ;;
  err1 <- read_local "err" (l_err lv) ;;
  ret (rc1, cmd1, out1, err1, previous_bucket_type lv).

Definition run_module (check_mode : bool) (cluster : string)
    (location : gmap string string) : M result :=
  let result := initial_result in
  if check_mode then ret result else
  if (size location <? 2)%nat then
    exit_json (set_rc (VInt 1) (set_stdout (VStr msg_two_buckets) result))
  else if negb (contains location "host") then
    exit_json (set_rc (VInt 1) (set_stdout (VStr msg_no_host) result))
  else
  match other_type_marker location with
  | None =>
    exit_json (set_rc (VInt 1) (set_stdout (VStr msg_invalid_others) result))
  | Some _ =>
    startd <- call_now ;;
    built <- create_and_move_buckets cluster location ;;
    let '(rc1, cmd1, out1, err1, previous) := built in
    endd <- call_now ;;
    let delta1 := (endd - startd)%Z in
    let result :=
      mkResult true (Some cmd1) (VTime startd) (VTime endd) (VDelta delta1)
        (VInt rc1) (VBytes (rstrip crlf out1)) (VBytes (rstrip crlf err1)) in
    match previous with
    | None =>
      exit_json (set_rc (VInt 1) (set_stdout (VStr msg_no_valid_type) result))
    | Some _ =>
      if negb (rc1 =? 0)%Z then fail_json "non-zero return code" result
      else exit_json result
    end
  end.

(** Running a computation from a world with an empty trace. *)
Definition run {A : Type} (m : M A) (w : World) : res A * machine :=
  m (mkMachine w []).

(** The argument vectors handed to [run_command], in order. *)
Definition emitted (st : machine) : list argv := map fst (trace st).

End Executor.

Arguments mkMachine {World} world trace.
Arguments world {World} m.
Arguments trace {World} m.
Arguments ret {World A} a st.
Arguments raise {World A} s st.
Arguments bind {World A B} m k st.
Arguments call_run_command {World} run_command c st.
Arguments call_now {World} now st.
Arguments subscript {World} d k st.
Arguments read_local {World A} name v st.
Arguments exit_json {World A} r st.
Arguments fail_json {World A} msg r st.
Arguments for_each {World A S} xs body s st.
Arguments loop_body {World} run_command cluster osd_crush_location
  crush_bucket_type lv st.
Arguments create_and_move_buckets {World} run_command cluster
  osd_crush_location st.
Arguments run_module {World} run_command now check_mode cluster location st.
Arguments run {World A} m w.
Arguments emitted {World} st.

(** ** The specification side *)

(** The recognised levels that are keys of the mapping, in topology order,
    each with its bucket name. *)
Definition present_among (location : gmap string string) (levels : list string)
    : list (string * string) :=
  omap (fun level => pair level <$> location !! level) levels.

Definition present_levels (location : gmap string string) : list (string * string) :=
  present_among location crush_bucket_types.

(** [add-bucket(name, level)] and [move(child, level=name)] as argument
    vectors. *)
Definition add_bucket (cluster : string) (b : string * string) : argv :=
  generate_cmd cluster "add-bucket" b.2 b.1.

Definition move_under (cluster : string) (child parent : string * string) : argv :=
  generate_cmd cluster "move" child.2 (parent.1 +:+ "=" +:+ parent.2).

(** The command sequence as the specification words it: a create for the
    first present level, then for each pair of consecutive present levels
    a create of the upper one followed by the move that nests the lower
    one under it. *)
Definition linked_pair (cluster : string) (lower upper : string * string) : list argv :=
  [add_bucket cluster upper; move_under cluster lower upper].

Definition spec_commands (cluster : string) (location : gmap string string) : list argv :=
  match present_levels location with
  | [] => []
  | first :: rest =>
      add_bucket cluster first
        :: concat (zip_with (linked_pair cluster) (first :: rest) rest)
  end.

(** The three checks of the location validator, in the specification's
    order, first failure wins. *)
Inductive rejection : Type :=
  | TooFewBuckets
  | MissingHost
  | NoOtherLevel.

Definition rejection_message (r : rejection) : string :=
  match r with
  | TooFewBuckets => msg_two_buckets
  | MissingHost => msg_no_host
  | NoOtherLevel => msg_invalid_others
  end.

Definition has_other_level (location : gmap string string) : Prop :=
  set_Exists (fun k => k ≠ "host" ∧ k ∈ crush_bucket_types) (dom location).

#[global] Instance has_other_level_dec (location : gmap string string) :
  Decision (has_other_level location).
Proof. unfold has_other_level. apply _. Defined.

Definition validate (location : gmap string string) : option rejection :=
  if negb (2 <=? size location)%nat then Some TooFewBuckets
  else if negb (bool_decide ("host" ∈ dom location)) then Some MissingHost
  else if negb (bool_decide (has_other_level location)) then Some NoOtherLevel
  else None.

(** The result dictionary of a rejected run. *)
Definition rejected (r : rejection) : result :=
  mkResult false None (VStr "") (VStr "") (VStr "") (VInt 1)
    (VStr (rejection_message r)) (VStr "").

(** Is this argument vector a move (resp. a create)? *)
Definition is_subcommand (sub : string) (c : argv) : bool :=
  match c !! 5%nat with
  | Some s => String.eqb s sub
  | None => false
  end.

(** ** A scripted executor, for concrete runs

    The world is the list of answers still to be given; when the script
    is exhausted every command succeeds with empty output. *)
Definition scripted (c : argv) (w : list cmd_result) : cmd_result * list cmd_result :=
  match w with
  | [] => ((0%Z, [], []), [])
  | r :: w' => (r, w')
  end.

Definition script_clock (w : list cmd_result) : Z := Z.of_nat (length w).

Definition example1 : gmap string string :=
  <["host" := "node1"]> (<["rack" := "rackA"]> ∅).

Definition example2 : gmap string string := <["host" := "node1"]> ∅.

Definition example3 : gmap string string :=
  <["host" := "node1"]> (<["rack" := "rackA"]> (<["root" := "default"]> ∅)).

(** ** Replaying a command list against the executor *)

(** Running the commands [cs] one after the other, as a bare sequence of
    [run_command] calls would. *)
Definition exec_all {World : Type} (run_command : argv -> World -> cmd_result * World)
    (cs : list argv) (st : machine World) : machine World :=
  fold_left (fun st c => (call_run_command run_command c st).2) cs st.

(** The create/move chain, told step by step from the bucket the walk
    stands on. *)
Fixpoint chain (cluster : string) (prev : option (string * string))
    (ps : list (string * string)) : list argv :=
  match ps with
  | [] => []
  | p :: ps' =>
      add_bucket cluster p
        :: match prev with
           | Some q => [move_under cluster q p]
           | None => []
           end
        ++ chain cluster (Some p) ps'
  end.

(** The locals of [create_and_move_buckets] once [level] was the last one
    processed: they mirror the last entry of the trace. *)
Definition locals_of_last {World : Type} (level : string) (st : machine World) : locals :=
  match last (trace st) with
  | Some (c, (rc1, out1, err1)) =>
      mkLocals (Some rc1) (Some c) (Some out1) (Some err1) (Some level)
  | None => mkLocals None None None None (Some level)
  end.

Definition locals_after {World : Type} (lv : locals) (ps : list (string * string))
    (st : machine World) : locals :=
  match last ps with
  | Some (level, _) => locals_of_last level st
  | None => lv
  end.

(** The bucket the walk stands on is a key of the mapping, and its level
    name is a true Python value. *)
Definition link_ok (location : gmap string string) (prev : option (string * string)) : Prop :=
  match prev with
  | Some (level, name) => level ≠ "" ∧ location !! level = Some name
  | None => True
  end.

(** ** Results and whole runs, as the specification describes them *)

(** The result dictionary built after the walk, from the two clock
    readings and the last call. *)
Definition report (startd endd : Z) (c : argv) (r : cmd_result) : result :=
  mkResult true (Some c) (VTime startd) (VTime endd) (VDelta (endd - startd))
    (VInt r.1.1) (VBytes (rstrip crlf r.1.2)) (VBytes (rstrip crlf r.2)).

(** How the module leaves after the walk. *)
Definition leave (r : result) (rc1 : Z) : signal :=
  if (rc1 =? 0)%Z then ExitJson r else FailJson "non-zero return code" r.

(** The commands of a whole run: none in check mode or after a
    rejection, the specified ones otherwise. *)
Definition run_commands (check_mode : bool) (cluster : string)
    (location : gmap string string) : list argv :=
  if check_mode then []
  else match validate location with
       | Some _ => []
       | None => spec_commands cluster location
       end.

(** The mapping cut down to the ten recognised levels. *)
Definition restrict (location : gmap string string) : gmap string string :=
  filter (fun kv => kv.1 ∈ crush_bucket_types) location.

(** Which check a rejection stands for: the first one that fails. *)
Definition first_failure (r : rejection) (location : gmap string string) : Prop :=
  match r with
  | TooFewBuckets => (size location < 2)%nat
  | MissingHost => (2 <= size location)%nat ∧ "host" ∉ dom location
  | NoOtherLevel =>
      (2 <= size location)%nat ∧ "host" ∈ dom location
      ∧ ¬ has_other_level location
  end.

(** The reading of "no error is silently swallowed" that C4 states: if some
    command of the run came back with a non-zero exit code, the run ends
    through [fail_json] with a non-zero rc. *)
Definition surfaces_failures {World : Type} (out : res result * machine World) : Prop :=
  (∃ call, call ∈ trace out.2 ∧ call.2.1.1 ≠ 0%Z) ->
  ∃ msg r z, out.1 = Raise (FailJson msg r) ∧ rc r = VInt z ∧ z ≠ 0%Z.

(** ** The rest of the module *)

(** What the code reads of the [AnsibleModule] object: the two
    parameters and the check-mode flag. *)
Record ansible_module : Type := mkModule {
  params_cluster : string;
  params_location : gmap string string;
  module_check_mode : bool
}.

(** [get_ansible_var]: the value of [variable] in the location
    dictionary; falling off the end of the function gives [None]. *)
Definition get_ansible_var {World : Type} (module : ansible_module)
    (variable : string) : M World (option string) :=
  if contains (params_location module) variable then
    bind (subscript (params_location module) variable)
      (fun v => ret (Some v))
  else ret None.

(** [main], with the module object that [run_module] builds made
    explicit. *)
Definition main {World : Type}
    (run_command : argv -> World -> cmd_result * World) (now : World -> Z)
    (module : ansible_module) : M World result :=
  run_module run_command now (module_check_mode module)
    (params_cluster module) (params_location module).

(** A byte of [b"\r\n"]. *)
Definition is_crlf (x : Byte.byte) : Prop := x = Byte.x0d ∨ x = Byte.x0a.

(** [b] is [raw] without its trailing run of carriage returns and line
    feeds. *)
Definition stripped_of (raw b : bytes) : Prop :=
  (∃ suffix, raw = b ++ suffix ∧ Forall is_crlf suffix)
  ∧ ∀ x, last b = Some x -> ¬ is_crlf x.

(** The shape of every command line the module builds. *)
Definition crush_command (cluster : string) (c : argv) : Prop :=
  ∃ sub bucket bucket_type,
    c = ["ceph"; "--cluster"; cluster; "osd"; "crush"; sub; bucket; bucket_type]
    ∧ (sub = "add-bucket" ∨ sub = "move").

(** * Properties of the walk *)

Section Walk.

Context {World : Type}.
Variable run_command : argv -> World -> cmd_result * World.
Variable now : World -> Z.

Implicit Types (st : machine World) (location : gmap string string).

Lemma exec_all_app cs1 cs2 st :
  exec_all run_command (cs1 ++ cs2) st
  = exec_all run_command cs2 (exec_all run_command cs1 st).
Proof. unfold exec_all. apply fold_left_app. Qed.

Lemma call_run_command_trace c st :
  trace (call_run_command run_command c st).2
  = trace st ++ [(c, (run_command c (world st)).1)].
Proof.
  unfold call_run_command. destruct (run_command c (world st)); reflexivity.
Qed.

Lemma emitted_exec_all cs : forall st,
  emitted (exec_all run_command cs st) = emitted st ++ cs.
Proof.
  induction cs as [|c cs IH]; intros st; simpl.
  - by rewrite app_nil_r.
  - rewrite IH. unfold emitted. rewrite call_run_command_trace.
    rewrite map_app. simpl. by rewrite <- app_assoc.
Qed.

Lemma trace_exec_all_prefix cs : forall st,
  exists calls, trace (exec_all run_command cs st) = trace st ++ calls
                /\ map fst calls = cs.
Proof.
  induction cs as [|c cs IH]; intros st; simpl.
  - exists []. by rewrite app_nil_r.
  - destruct (IH (call_run_command run_command c st).2) as (calls & Ht & Hc).
    rewrite call_run_command_trace in Ht.
    exists ((c, (run_command c (world st)).1) :: calls). split.
    + rewrite Ht. by rewrite <- app_assoc.
    + simpl. by rewrite Hc.
Qed.

Lemma present_among_cons_Some location level levels name :
  location !! level = Some name ->
  present_among location (level :: levels)
  = (level, name) :: present_among location levels.
Proof. intros H. unfold present_among. simpl. by rewrite H. Qed.

Lemma present_among_cons_None location level levels :
  location !! level = None ->
  present_among location (level :: levels) = present_among location levels.
Proof. intros H. unfold present_among. simpl. by rewrite H. Qed.

Lemma locals_after_cons lv lv' level name ps st :
  ps ≠ [] ->
  locals_after lv ((level, name) :: ps) st = locals_after lv' ps st.
Proof.
  intros Hps. unfold locals_after.
  destruct ps as [|p ps]; [done|]. rewrite last_cons_cons.
  destruct (last (p :: ps)) as [[? ?]|] eqn:Hlast; [done|].
  by apply last_None in Hlast.
Qed.

(** The loop of [create_and_move_buckets], from any point of the walk:
    it never raises, it runs exactly the chain of the present levels,
    and it leaves the locals of the last call. *)
Lemma for_each_loop_body cluster location levels :
  forall prev lv st,
    Forall (fun level => level ≠ "") levels ->
    link_ok location prev ->
    previous_bucket_type lv = fst <$> prev ->
    let ps := present_among location levels in
    let st' := exec_all run_command (chain cluster prev ps) st in
    for_each levels (loop_body run_command cluster location) lv st
    = (Ok (locals_after lv ps st'), st').
Proof.
  induction levels as [|level levels IH]; intros prev lv st Hne Hlink Hprev.
  - reflexivity.
  - inversion Hne as [|? ? Hlevel Hrest]; subst.
    cbn zeta. simpl for_each. unfold bind at 1. unfold loop_body at 1.
    unfold contains, subscript.
    destruct (location !! level) as [name|] eqn:Hlook.
    + rewrite (present_among_cons_Some _ _ _ _ Hlook).
      unfold bind at 1. unfold ret at 1. unfold bind at 1.
      set (cmd1 := generate_cmd cluster "add-bucket" name level).
      unfold call_run_command at 1.
      destruct (run_command cmd1 (world st)) as [[[rc1 out1] err1] w1] eqn:Hrun1.
      destruct prev as [[plevel pname]|]; simpl in Hlink, Hprev;
        rewrite Hprev; unfold truthy.
      * destruct Hlink as [Hpl Hpn].
        assert (String.eqb plevel "" = false) as -> by by apply String.eqb_neq.
        cbn [negb from_option id]. rewrite Hpn.
        unfold bind at 1, ret at 1. unfold bind at 1, ret at 1.
        unfold bind at 1.
        set (cmd2 := generate_cmd cluster "move" pname (level +:+ "=" +:+ name)).
        unfold call_run_command at 1. simpl world.
        destruct (run_command cmd2 w1) as [[[rc2 out2] err2] w2] eqn:Hrun2.
        unfold ret at 1. simpl trace.
        rewrite (IH (Some (level, name))); [|done|done|done].
        simpl chain.
        change (add_bucket cluster (level, name)) with cmd1.
        change (move_under cluster (plevel, pname) (level, name)) with cmd2.
        assert (forall cs, exec_all run_command (cmd1 :: cmd2 :: cs) st
                  = exec_all run_command cs
                      (mkMachine w2
                         ((trace st ++ [(cmd1, (rc1, out1, err1))])
                            ++ [(cmd2, (rc2, out2, err2))]))) as Hst.
        { intros cs. unfold exec_all. simpl. unfold call_run_command.
          rewrite Hrun1. simpl. by rewrite Hrun2. }
        rewrite Hst. f_equal. f_equal.
        destruct (present_among location levels) as [|p ps] eqn:Hps.
        -- simpl. unfold locals_after. simpl. unfold locals_of_last.
           simpl. by rewrite last_snoc.
        -- symmetry. by apply locals_after_cons.
      * unfold ret at 1.
        rewrite (IH (Some (level, name))); [|done|done|done].
        simpl chain.
        change (add_bucket cluster (level, name)) with cmd1.
        assert (forall cs, exec_all run_command (cmd1 :: cs) st
                  = exec_all run_command cs
                      (mkMachine w1 (trace st ++ [(cmd1, (rc1, out1, err1))])))
          as Hst.
        { intros cs. unfold exec_all. simpl. unfold call_run_command.
          by rewrite Hrun1. }
        rewrite Hst. f_equal. f_equal.
        destruct (present_among location levels) as [|p ps] eqn:Hps.
        -- simpl. unfold locals_after. simpl. unfold locals_of_last.
           simpl. by rewrite last_snoc.
        -- symmetry. by apply locals_after_cons.
    + rewrite (present_among_cons_None _ _ _ Hlook).
      unfold ret at 1. by apply IH.
Qed.

End Walk.

(** ** The walk against the specification's wording *)

Lemma crush_bucket_types_true : Forall (fun level => level ≠ "") crush_bucket_types.
Proof. unfold crush_bucket_types. repeat constructor; discriminate. Qed.

Lemma chain_linked cluster ps : forall q,
  chain cluster (Some q) ps = concat (zip_with (linked_pair cluster) (q :: ps) ps).
Proof.
  induction ps as [|p ps IH]; intros q; [reflexivity|].
  simpl. by rewrite IH.
Qed.

Lemma chain_spec_commands cluster location :
  chain cluster None (present_levels location) = spec_commands cluster location.
Proof.
  unfold spec_commands. destruct (present_levels location) as [|p ps]; [done|].
  simpl. by rewrite chain_linked.
Qed.

Lemma chain_nil_inv cluster prev ps : chain cluster prev ps = [] -> ps = [].
Proof. by destruct ps. Qed.

Lemma elem_of_present_among location levels level name :
  (level, name) ∈ present_among location levels
  <-> level ∈ levels ∧ location !! level = Some name.
Proof.
  unfold present_among. rewrite list_elem_of_omap. split.
  - intros (k & Hk & Hf). destruct (location !! k) as [v|] eqn:Hv; [|done].
    simpl in Hf. by simplify_eq.
  - intros [Hk Hv]. exists level. split; [done|]. by rewrite Hv.
Qed.

(** ** The validation code against the three checks *)

Lemma contains_dom (location : gmap string string) k :
  contains location k = bool_decide (k ∈ dom location).
Proof.
  unfold contains. destruct (location !! k) eqn:Hk.
  - symmetry. apply bool_decide_eq_true. apply elem_of_dom. by rewrite Hk.
  - symmetry. apply bool_decide_eq_false. rewrite elem_of_dom, Hk.
    by intros [? ?].
Qed.

Lemma marker_fold location levels : forall acc,
  is_Some
    (fold_left
       (fun previous_bucket_type crush_bucket_type =>
          if contains location crush_bucket_type
             && negb (String.eqb crush_bucket_type "host")
          then Some "Ok"
          else previous_bucket_type)
       levels acc)
  <-> is_Some acc
      ∨ ∃ k, k ∈ levels ∧ k ∈ dom location ∧ k ≠ "host".
Proof.
  induction levels as [|level levels IH]; intros acc; simpl.
  - split; [by left|]. intros [H|(k & Hk & _)]; [done|]. by apply elem_of_nil in Hk.
  - rewrite IH, contains_dom. setoid_rewrite elem_of_cons.
    destruct (bool_decide_reflect (level ∈ dom location)) as [Hin|Hin];
      destruct (String.eqb_spec level "host") as [Heq|Heq]; simpl;
      (split;
       [ intros [H|(k & Hk & Hd & Hh)];
         [ first [ by left | right; exists level; split; [by left|done] ]
         | right; exists k; split; [by right|done] ]
       | intros [H|(k & [->|Hk] & Hd & Hh)];
         [ first [ by left | left; by eexists ]
         | first [ exfalso; congruence | exfalso; done | left; by eexists ]
         | first [ right; by exists k | left; by eexists ] ] ]).
Qed.

Lemma other_type_marker_spec location :
  is_Some (other_type_marker location) <-> has_other_level location.
Proof.
  unfold other_type_marker, has_other_level, set_Exists.
  rewrite marker_fold. split.
  - intros [[? H]|(k & Hk & Hd & Hh)]; [done|]. by exists k.
  - intros (k & Hd & Hh & Hk). right. by exists k.
Qed.

Lemma validate_None location :
  validate location = None
  <-> (2 <= size location)%nat ∧ "host" ∈ dom location ∧ has_other_level location.
Proof.
  unfold validate.
  destruct (Nat.leb_spec 2 (size location)) as [Hsz|Hsz]; simpl.
  - destruct (bool_decide_reflect ("host" ∈ dom location)) as [Hh|Hh]; simpl.
    + destruct (bool_decide_reflect (has_other_level location)) as [Ho|Ho]; simpl.
      * by split.
      * split; [done|]. by intros (_ & _ & ?).
    + split; [done|]. by intros (_ & ? & _).
  - split; [done|]. intros (? & _ & _). lia.
Qed.

(** A mapping that passes the three checks has [host] and one more
    recognised level among its keys. *)
Lemma validate_present location :
  validate location = None ->
  ∃ name p ps, present_levels location = ("host", name) :: p :: ps.
Proof.
  rewrite validate_None. intros (_ & Hhost & (k & Hk & Hne & Hlevel)).
  apply elem_of_dom in Hhost as [name Hname].
  apply elem_of_dom in Hk as [v Hv].
  exists name. unfold present_levels, crush_bucket_types.
  rewrite (present_among_cons_Some _ _ _ _ Hname).
  unfold crush_bucket_types in Hlevel.
  apply elem_of_cons in Hlevel as [->|Hlevel]; [done|].
  assert ((k, v) ∈ present_among location
            ["chassis"; "rack"; "row"; "pdu"; "pod"; "room";
             "datacenter"; "region"; "root"]) as Hin
    by by apply elem_of_present_among.
  destruct (present_among location _) as [|p ps]; [|by exists p, ps].
  by apply elem_of_nil in Hin.
Qed.

Section Run.

Context {World : Type}.
Variable run_command : argv -> World -> cmd_result * World.
Variable now : World -> Z.

Implicit Types (st : machine World) (location : gmap string string).

Lemma last_trace_exec_all cs st :
  cs ≠ [] -> is_Some (last (trace (exec_all run_command cs st))).
Proof.
  intros Hcs. destruct (trace_exec_all_prefix run_command cs st)
    as (calls & -> & Hcalls).
  apply last_is_Some. intros Happ.
  apply app_eq_nil in Happ as [_ ->]. by subst cs.
Qed.

(** The walk on a mapping with at least one recognised level: it returns
    normally, having run the specified commands, with the answer to the
    last of them and the last present level. *)
Lemma create_and_move_buckets_run cluster location st :
  present_levels location ≠ [] ->
  let st' := exec_all run_command (spec_commands cluster location) st in
  ∃ level name c r,
    last (present_levels location) = Some (level, name)
    ∧ last (trace st') = Some (c, r)
    ∧ create_and_move_buckets run_command cluster location st
      = (Ok (r.1.1, c, r.1.2, r.2, Some level), st').
Proof.
  intros Hps st'.
  destruct (last (present_levels location)) as [[level name]|] eqn:Hlast;
    [|by apply last_None in Hlast].
  assert (spec_commands cluster location ≠ []) as Hcmds.
  { rewrite <- chain_spec_commands. intros H. by apply chain_nil_inv in H. }
  destruct (last_trace_exec_all (spec_commands cluster location) st Hcmds)
    as [[c [[rc1 out1] err1]] Hcall]. fold st' in Hcall.
  exists level, name, c, (rc1, out1, err1). split; [done|]. split; [done|].
  unfold create_and_move_buckets, bind.
  rewrite (for_each_loop_body run_command cluster location
             crush_bucket_types None initial_locals st
             crush_bucket_types_true I eq_refl).
  fold (present_levels location). rewrite chain_spec_commands. fold st'.
  unfold locals_after. rewrite Hlast. unfold locals_of_last. rewrite Hcall.
  reflexivity.
Qed.

(** Without any recognised level the walk assigns nothing, and its
    [return] fails on the first name it reads. *)
Lemma create_and_move_buckets_unbound cluster location st :
  present_levels location = [] ->
  create_and_move_buckets run_command cluster location st
  = (Raise (UnboundLocalError "rc"), st).
Proof.
  intros Hps. unfold create_and_move_buckets, bind.
  rewrite (for_each_loop_body run_command cluster location
             crush_bucket_types None initial_locals st
             crush_bucket_types_true I eq_refl).
  fold (present_levels location). rewrite Hps. reflexivity.
Qed.

Lemma run_module_rejected cluster location st r :
  validate location = Some r ->
  run_module run_command now false cluster location st
  = (Raise (ExitJson (rejected r)), st).
Proof.
  unfold validate, run_module. rewrite Nat.ltb_antisym, contains_dom.
  destruct (2 <=? size location)%nat; simpl; [|by intros [= <-]].
  destruct (bool_decide ("host" ∈ dom location)); simpl; [|by intros [= <-]].
  destruct (bool_decide_reflect (has_other_level location)) as [Ho|Ho];
    simpl; [done|]. intros [= <-].
  destruct (other_type_marker location) eqn:Hm; [|done].
  exfalso. apply Ho, other_type_marker_spec. by rewrite Hm.
Qed.

Lemma run_module_accepted cluster location st :
  validate location = None ->
  let st' := exec_all run_command (spec_commands cluster location) st in
  ∃ level name c r,
    last (present_levels location) = Some (level, name)
    ∧ last (trace st') = Some (c, r)
    ∧ run_module run_command now false cluster location st
      = (Raise (leave (report (now (world st)) (now (world st')) c r) r.1.1),
         st').
Proof.
  intros Hval st'.
  destruct (validate_present _ Hval) as (hn & p & ps & Hps).
  destruct (create_and_move_buckets_run cluster location st)
    as (level & name & c & [[rc1 out1] err1] & Hlast & Hcall & Hrun);
    [by rewrite Hps|]. fold st' in Hcall, Hrun.
  exists level, name, c, (rc1, out1, err1). split; [done|]. split; [done|].
  apply validate_None in Hval as (Hsz & Hhost & Hother).
  unfold run_module. rewrite Nat.ltb_antisym, contains_dom.
  assert ((2 <=? size location)%nat = true) as -> by by apply Nat.leb_le.
  rewrite (bool_decide_eq_true_2 _ Hhost). cbn [negb].
  apply other_type_marker_spec in Hother as [mk ->].
  unfold bind at 1. unfold call_now at 1. cbv beta iota.
  unfold bind at 1. rewrite Hrun.
  unfold bind at 1. unfold call_now at 1. cbv beta iota.
  unfold leave, report, fail_json, exit_json, raise. simpl.
  by destruct (rc1 =? 0)%Z.
Qed.

End Run.

(** ** Reading creates and moves off a command sequence *)

Lemma filter_add_chain cluster ps : forall prev,
  List.filter (is_subcommand "add-bucket") (chain cluster prev ps)
  = map (add_bucket cluster) ps.
Proof.
  induction ps as [|p ps IH]; intros prev; [reflexivity|].
  destruct prev as [q|]; simpl; by rewrite IH.
Qed.

Lemma filter_move_chain cluster ps : forall q,
  List.filter (is_subcommand "move") (chain cluster (Some q) ps)
  = zip_with (move_under cluster) (q :: ps) ps.
Proof.
  induction ps as [|p ps IH]; intros q; [reflexivity|].
  simpl. by rewrite IH.
Qed.

Lemma creates_of_spec_commands cluster location :
  List.filter (is_subcommand "add-bucket") (spec_commands cluster location)
  = map (add_bucket cluster) (present_levels location).
Proof. rewrite <- chain_spec_commands. apply filter_add_chain. Qed.

Lemma moves_of_spec_commands cluster location :
  List.filter (is_subcommand "move") (spec_commands cluster location)
  = zip_with (move_under cluster) (present_levels location)
      (tail (present_levels location)).
Proof.
  rewrite <- chain_spec_commands.
  destruct (present_levels location) as [|p ps]; [reflexivity|].
  simpl. apply filter_move_chain.
Qed.

Lemma length_zip_with_tail {A B : Type} (f : A -> A -> B) (l : list A) :
  length (zip_with f l (tail l)) = (length l - 1)%nat.
Proof.
  rewrite length_zip_with. destruct l as [|a l]; [reflexivity|].
  cbn [tail length]. lia.
Qed.

(** The present levels are the recognised levels that are keys of the
    mapping, in the order of [crush_bucket_types]. *)
Lemma present_among_levels location levels :
  map fst (present_among location levels)
  = List.filter (contains location) levels.
Proof.
  induction levels as [|level levels IH]; [reflexivity|].
  unfold contains at 1. simpl. unfold present_among in *. simpl.
  destruct (location !! level); simpl; by rewrite IH.
Qed.

Lemma present_among_names location levels :
  Forall (fun b => location !! b.1 = Some b.2) (present_among location levels).
Proof.
  apply Forall_forall. intros [level name] Hin.
  by apply elem_of_present_among in Hin as [_ ?].
Qed.

Section Emitted.

Context {World : Type}.
Variable run_command : argv -> World -> cmd_result * World.
Variable now : World -> Z.

Implicit Types (st : machine World) (location : gmap string string).

(** Whatever the mapping, the walk hands exactly the specified commands
    to the executor. *)
Lemma create_and_move_buckets_state cluster location st :
  (create_and_move_buckets run_command cluster location st).2
  = exec_all run_command (spec_commands cluster location) st.
Proof.
  destruct (present_levels location) as [|p ps] eqn:Hps.
  - rewrite create_and_move_buckets_unbound by done.
    unfold spec_commands. by rewrite Hps.
  - destruct (create_and_move_buckets_run run_command cluster location st)
      as (? & ? & ? & ? & _ & _ & ->); [by rewrite Hps|done].
Qed.

Lemma create_and_move_buckets_emitted cluster location st :
  emitted (create_and_move_buckets run_command cluster location st).2
  = emitted st ++ spec_commands cluster location.
Proof. rewrite create_and_move_buckets_state. apply emitted_exec_all. Qed.

Lemma run_module_emitted check_mode cluster location st :
  emitted (run_module run_command now check_mode cluster location st).2
  = emitted st ++ run_commands check_mode cluster location.
Proof.
  unfold run_commands. destruct check_mode.
  - simpl. by rewrite app_nil_r.
  - destruct (validate location) as [r|] eqn:Hval.
    + rewrite (run_module_rejected _ _ _ _ _ _ Hval). simpl.
      by rewrite app_nil_r.
    + destruct (run_module_accepted run_command now cluster location st Hval)
        as (? & ? & ? & ? & _ & _ & ->). simpl. apply emitted_exec_all.
Qed.

End Emitted.

(** ** Unrecognised keys *)

Lemma restrict_lookup location level :
  level ∈ crush_bucket_types -> restrict location !! level = location !! level.
Proof.
  intros Hlevel. apply option_eq. intros name. unfold restrict.
  rewrite map_lookup_filter_Some. split; [by intros [? _]|by split].
Qed.

Lemma present_among_ext location1 location2 levels :
  (forall level, level ∈ levels -> location1 !! level = location2 !! level) ->
  present_among location1 levels = present_among location2 levels.
Proof.
  induction levels as [|level levels IH]; intros Hagree; [reflexivity|].
  assert (location1 !! level = location2 !! level) as Hhere
    by apply Hagree, list_elem_of_here.
  assert (present_among location1 levels = present_among location2 levels)
    as Hrest.
  { apply IH. intros k Hk. by apply Hagree, list_elem_of_further. }
  destruct (location2 !! level) as [name|] eqn:Hlook.
  - rewrite (present_among_cons_Some _ _ _ _ Hhere).
    rewrite (present_among_cons_Some _ _ _ _ Hlook). by rewrite Hrest.
  - rewrite (present_among_cons_None _ _ _ Hhere).
    by rewrite (present_among_cons_None _ _ _ Hlook).
Qed.

Lemma spec_commands_ext cluster location1 location2 :
  (forall level, level ∈ crush_bucket_types ->
     location1 !! level = location2 !! level) ->
  spec_commands cluster location1 = spec_commands cluster location2.
Proof.
  intros Hagree. unfold spec_commands, present_levels.
  by rewrite (present_among_ext _ _ _ Hagree).
Qed.

Lemma spec_commands_restrict cluster location :
  spec_commands cluster (restrict location) = spec_commands cluster location.
Proof. apply spec_commands_ext. intros level. apply restrict_lookup. Qed.

Lemma host_recognised : "host" ∈ crush_bucket_types.
Proof. apply list_elem_of_here. Qed.

Lemma validate_restrict location :
  validate location = None -> validate (restrict location) = None.
Proof.
  rewrite !validate_None. intros (_ & Hhost & (k & Hk & Hne & Hlevel)).
  apply elem_of_dom in Hhost. apply elem_of_dom in Hk.
  rewrite <- (restrict_lookup location "host") in Hhost by apply host_recognised.
  rewrite <- (restrict_lookup location k) in Hk by done.
  split; [|split].
  - rewrite <- (lookup_delete_ne (restrict location) "host" k) in Hk by done.
    apply map_size_ne_0_lookup_2 in Hk.
    rewrite (map_size_delete_Some _ _ Hhost) in Hk. lia.
  - by apply elem_of_dom.
  - exists k. split; [by apply elem_of_dom|done].
Qed.

Lemma restrict_validate location :
  validate (restrict location) = None -> validate location = None.
Proof.
  rewrite !validate_None. intros (Hsz & Hhost & (k & Hk & Hne & Hlevel)).
  apply elem_of_dom in Hhost. apply elem_of_dom in Hk.
  rewrite (restrict_lookup location "host") in Hhost by apply host_recognised.
  rewrite (restrict_lookup location k) in Hk by done.
  split; [|split].
  - etrans; [exact Hsz|]. apply map_subseteq_size. unfold restrict.
    apply map_filter_subseteq.
  - by apply elem_of_dom.
  - exists k. split; [by apply elem_of_dom|done].
Qed.

Lemma run_commands_restrict check_mode cluster location :
  run_commands check_mode cluster (restrict location)
  = run_commands check_mode cluster location.
Proof.
  unfold run_commands. destruct check_mode; [done|].
  destruct (validate location) as [r|] eqn:Hval.
  - destruct (validate (restrict location)) eqn:Hres; [done|].
    apply restrict_validate in Hres. congruence.
  - rewrite (validate_restrict _ Hval). apply spec_commands_restrict.
Qed.

Lemma validate_Some location r :
  validate location = Some r -> first_failure r location.
Proof.
  unfold validate.
  destruct (Nat.leb_spec 2 (size location)) as [Hsz|Hsz]; simpl;
    [|by intros [= <-]].
  destruct (bool_decide_reflect ("host" ∈ dom location)) as [Hh|Hh]; simpl;
    [|by intros [= <-]].
  destruct (bool_decide_reflect (has_other_level location)) as [Ho|Ho]; simpl;
    [done|by intros [= <-]].
Qed.

(** * Main results *)

(** C1: for a mapping that passes validation, [create_and_move_buckets]
    walks the ten levels in their fixed order restricted to the keys
    present; it emits an add-bucket for each present level, and for each
    present level after the first also the move that nests the previously
    created bucket under it, so the moves are one per pair of consecutive
    present levels. *)
Theorem create_and_move_buckets_order {World : Type}
    (run_command : argv -> World -> cmd_result * World)
    (cluster : string) (location : gmap string string) (w : World) :
  validate location = None ->
  let present := present_levels location in
  let cmds :=
    emitted (run (create_and_move_buckets run_command cluster location) w).2 in
  (∃ v, (run (create_and_move_buckets run_command cluster location) w).1 = Ok v)
  ∧ map fst present = List.filter (contains location) crush_bucket_types
  ∧ Forall (fun b => location !! b.1 = Some b.2) present
  ∧ cmds = spec_commands cluster location
  ∧ List.filter (is_subcommand "add-bucket") cmds
    = map (add_bucket cluster) present
  ∧ List.filter (is_subcommand "move") cmds
    = zip_with (move_under cluster) present (tail present)
  ∧ length (List.filter (is_subcommand "move") cmds) = (length present - 1)%nat.
Proof.
  intros Hval present cmds.
  assert (cmds = spec_commands cluster location) as Hcmds.
  { unfold cmds, run. by rewrite create_and_move_buckets_emitted. }
  split.
  { destruct (validate_present _ Hval) as (hn & p & ps & Hps).
    destruct (create_and_move_buckets_run run_command cluster location
                (mkMachine w []))
      as (? & ? & ? & ? & _ & _ & Hrun); [by rewrite Hps|].
    unfold run. rewrite Hrun. by eexists. }
  split; [apply present_among_levels|].
  split; [apply present_among_names|].
  split; [done|]. rewrite Hcmds.
  split; [apply creates_of_spec_commands|].
  split; [apply moves_of_spec_commands|].
  rewrite moves_of_spec_commands. apply length_zip_with_tail.
Qed.

(** The third example of the specification, run against the scripted
    executor. *)
Lemma create_and_move_buckets_order_example3 :
  validate example3 = None
  ∧ emitted (run (create_and_move_buckets scripted "ceph" example3) []).2
    = [ generate_cmd "ceph" "add-bucket" "node1" "host";
        generate_cmd "ceph" "add-bucket" "rackA" "rack";
        generate_cmd "ceph" "move" "node1" "rack=rackA";
        generate_cmd "ceph" "add-bucket" "default" "root";
        generate_cmd "ceph" "move" "rackA" "root=default" ].
Proof.
  assert (validate example3 = None) as Hval by (vm_compute; reflexivity).
  split; [exact Hval|].
  destruct (create_and_move_buckets_order scripted "ceph" example3 [] Hval)
    as (_ & _ & _ & -> & _).
  vm_compute. reflexivity.
Defined.

(** C2: validation applies its three checks in order and stops at the
    first failure (at least two entries, a [host] key, a recognised key
    other than [host]); a mapping failing any of them ends the run with
    rc 1, the message of the failed check in stdout, and no command
    executed. *)
Theorem validation_short_circuits {World : Type}
    (run_command : argv -> World -> cmd_result * World) (now : World -> Z)
    (cluster : string) (location : gmap string string) (st : machine World) :
  ¬ ((2 <= size location)%nat ∧ "host" ∈ dom location
     ∧ has_other_level location) ->
  ∃ r, validate location = Some r
    ∧ first_failure r location
    ∧ run_module run_command now false cluster location st
      = (Raise (ExitJson (rejected r)), st)
    ∧ rc (rejected r) = VInt 1
    ∧ stdout (rejected r) = VStr (rejection_message r).
Proof.
  intros Hfail. destruct (validate location) as [r|] eqn:Hval.
  - exists r. split; [done|]. split; [by apply validate_Some|].
    split; [by apply run_module_rejected|]. by split.
  - by apply validate_None in Hval.
Qed.

Lemma validation_short_circuits_example2 :
  ¬ ((2 <= size example2)%nat ∧ "host" ∈ dom example2
     ∧ has_other_level example2)
  ∧ ∃ r, validate example2 = Some r
    ∧ first_failure r example2
    ∧ run_module scripted script_clock false "ceph" example2 (mkMachine [] [])
      = (Raise (ExitJson (rejected r)), mkMachine [] [])
    ∧ rc (rejected r) = VInt 1
    ∧ stdout (rejected r) = VStr (rejection_message r).
Proof.
  assert (¬ ((2 <= size example2)%nat ∧ "host" ∈ dom example2
             ∧ has_other_level example2)) as Hfail.
  { intros [Hsz _]. vm_compute in Hsz. lia. }
  split; [exact Hfail|].
  apply (validation_short_circuits scripted script_clock "ceph" example2
           (mkMachine [] []) Hfail).
Defined.

(** C3: on a mapping that passes validation the walk never stops at a
    non-zero exit code: whatever the executor answers, all the specified
    commands are run, the walk ends on the last present level, and the
    returned tuple holds the exit code, command, stdout and stderr of the
    last command run, which is what the result reports. *)
Theorem walk_keeps_last_call {World : Type}
    (run_command : argv -> World -> cmd_result * World) (now : World -> Z)
    (cluster : string) (location : gmap string string) (st : machine World) :
  validate location = None ->
  let st' := exec_all run_command (spec_commands cluster location) st in
  ∃ level name c r,
    last (present_levels location) = Some (level, name)
    ∧ emitted st' = emitted st ++ spec_commands cluster location
    ∧ last (trace st') = Some (c, r)
    ∧ create_and_move_buckets run_command cluster location st
      = (Ok (r.1.1, c, r.1.2, r.2, Some level), st')
    ∧ run_module run_command now false cluster location st
      = (Raise (leave (report (now (world st)) (now (world st')) c r) r.1.1),
         st').
Proof.
  intros Hval st'.
  destruct (validate_present _ Hval) as (hn & p & ps & Hps).
  destruct (create_and_move_buckets_run run_command cluster location st)
    as (level & name & c & r & Hlast & Hcall & Hrun); [by rewrite Hps|].
  destruct (run_module_accepted run_command now cluster location st Hval)
    as (level' & name' & c' & r' & _ & Hcall' & Hmod).
  fold st' in Hcall, Hrun, Hcall', Hmod.
  assert (c' = c ∧ r' = r) as [-> ->] by (split; congruence).
  exists level, name, c, r.
  split; [done|]. split; [apply emitted_exec_all|]. by repeat split.
Qed.

(** First example of the specification with every command failing. *)
Lemma walk_keeps_last_call_all_failing :
  validate example1 = None
  ∧ run_module scripted script_clock false "ceph" example1
      (mkMachine [(1%Z, [], []); (2%Z, [], []); (3%Z, [], [])] [])
    = (Raise
         (FailJson "non-zero return code"
            (mkResult true
               (Some (generate_cmd "ceph" "move" "node1" "rack=rackA"))
               (VTime 3) (VTime 0) (VDelta (-3)) (VInt 3)
               (VBytes []) (VBytes []))),
       mkMachine []
         [ (generate_cmd "ceph" "add-bucket" "node1" "host", (1%Z, [], []));
           (generate_cmd "ceph" "add-bucket" "rackA" "rack", (2%Z, [], []));
           (generate_cmd "ceph" "move" "node1" "rack=rackA", (3%Z, [], [])) ]).
Proof.
  assert (validate example1 = None) as Hval by (vm_compute; reflexivity).
  split; [exact Hval|].
  destruct (walk_keeps_last_call scripted script_clock "ceph" example1
              (mkMachine [(1%Z, [], []); (2%Z, [], []); (3%Z, [], [])] [])
              Hval)
    as (level & name & c & r & _ & _ & Hcall & _ & ->).
  vm_compute in Hcall. injection Hcall as <- <-.
  vm_compute. reflexivity.
Defined.

(** C4, as stated, fails: when the first add-bucket fails and the later
    commands succeed, the run ends through [exit_json] with rc 0. *)
Lemma masked_failure_counterexample :
  let out :=
    run_module scripted script_clock false "ceph" example1
      (mkMachine [(1%Z, [], []); (0%Z, [], []); (0%Z, [], [])] []) in
  ¬ surfaces_failures out
  ∧ trace out.2
    = [ (generate_cmd "ceph" "add-bucket" "node1" "host", (1%Z, [], []));
        (generate_cmd "ceph" "add-bucket" "rackA" "rack", (0%Z, [], []));
        (generate_cmd "ceph" "move" "node1" "rack=rackA", (0%Z, [], [])) ]
  ∧ ∃ r, out.1 = Raise (ExitJson r) ∧ rc r = VInt 0.
Proof.
  intros out.
  assert (trace out.2
          = [ (generate_cmd "ceph" "add-bucket" "node1" "host", (1%Z, [], []));
              (generate_cmd "ceph" "add-bucket" "rackA" "rack", (0%Z, [], []));
              (generate_cmd "ceph" "move" "node1" "rack=rackA", (0%Z, [], [])) ])
    as Htrace by (vm_compute; reflexivity).
  split; [|split; [exact Htrace|]].
  - intros Hsurf. destruct Hsurf as (msg & r & z & Hout & _).
    + exists (generate_cmd "ceph" "add-bucket" "node1" "host", (1%Z, [], [])).
      split; [|done]. rewrite Htrace. apply list_elem_of_here.
    + vm_compute in Hout. discriminate Hout.
  - eexists. split; vm_compute; reflexivity.
Qed.

(** C4, amended: on a mapping that passes validation, if the last command
    run came back with a non-zero exit code, the run ends through
    [fail_json] with the message "non-zero return code" and that exit
    code as rc. *)
Theorem last_failure_surfaces {World : Type}
    (run_command : argv -> World -> cmd_result * World) (now : World -> Z)
    (cluster : string) (location : gmap string string) (st : machine World)
    (c : argv) (r : cmd_result) :
  validate location = None ->
  last (trace (run_module run_command now false cluster location st).2)
    = Some (c, r) ->
  r.1.1 ≠ 0%Z ->
  ∃ res,
    (run_module run_command now false cluster location st).1
      = Raise (FailJson "non-zero return code" res)
    ∧ rc res = VInt r.1.1
    ∧ cmd res = Some c.
Proof.
  intros Hval Hlast Hrc.
  destruct (run_module_accepted run_command now cluster location st Hval)
    as (level & name & c' & r' & _ & Hcall & Hmod).
  rewrite Hmod in Hlast |- *. simpl in Hlast |- *.
  assert (c' = c ∧ r' = r) as [-> ->] by (split; congruence).
  eexists. unfold leave.
  destruct (Z.eqb_spec r.1.1 0) as [Hz|Hz]; [done|]. by repeat split.
Qed.

Lemma last_failure_surfaces_example1 :
  validate example1 = None
  ∧ last (trace (run_module scripted script_clock false "ceph" example1
                   (mkMachine [(0%Z, [], []); (0%Z, [], []); (2%Z, [], [])] [])).2)
    = Some (generate_cmd "ceph" "move" "node1" "rack=rackA", (2%Z, [], []))
  ∧ (2%Z, ([] : bytes), ([] : bytes)).1.1 ≠ 0%Z
  ∧ ∃ res,
      (run_module scripted script_clock false "ceph" example1
         (mkMachine [(0%Z, [], []); (0%Z, [], []); (2%Z, [], [])] [])).1
        = Raise (FailJson "non-zero return code" res)
      ∧ rc res = VInt 2
      ∧ cmd res = Some (generate_cmd "ceph" "move" "node1" "rack=rackA").
Proof.
  assert (validate example1 = None) as Hval by (vm_compute; reflexivity).
  assert (last (trace (run_module scripted script_clock false "ceph" example1
             (mkMachine [(0%Z, [], []); (0%Z, [], []); (2%Z, [], [])] [])).2)
          = Some (generate_cmd "ceph" "move" "node1" "rack=rackA",
                  (2%Z, [], []))) as Hlast by (vm_compute; reflexivity).
  assert ((2%Z, ([] : bytes), ([] : bytes)).1.1 ≠ 0%Z) as Hrc by (simpl; lia).
  split; [exact Hval|]. split; [exact Hlast|]. split; [exact Hrc|].
  exact (last_failure_surfaces scripted script_clock "ceph" example1 _ _ _
           Hval Hlast Hrc).
Defined.

(** C5: [generate_cmd] returns the eight-element argument vector
    [ceph --cluster <cluster> osd crush <subcommand> <bucket> <type>], every
    token as given; in the moves of the walk the last token is the parent's
    level, an equals sign, and the parent's bucket name. *)
Theorem generate_cmd_shape {World : Type}
    (run_command : argv -> World -> cmd_result * World)
    (cluster subcommand bucket bucket_type : string)
    (location : gmap string string) (child parent : string * string)
    (w : World) :
  generate_cmd cluster subcommand bucket bucket_type
  = ["ceph"; "--cluster"; cluster; "osd"; "crush";
     subcommand; bucket; bucket_type]
  ∧ length (generate_cmd cluster subcommand bucket bucket_type) = 8%nat
  ∧ List.filter (is_subcommand "move")
      (emitted (run (create_and_move_buckets run_command cluster location) w).2)
    = zip_with (move_under cluster) (present_levels location)
        (tail (present_levels location))
  ∧ move_under cluster child parent
    = ["ceph"; "--cluster"; cluster; "osd"; "crush"; "move"; child.2;
       parent.1 +:+ "=" +:+ parent.2].
Proof.
  split; [reflexivity|]. split; [reflexivity|]. split; [|reflexivity].
  unfold run. rewrite create_and_move_buckets_emitted. simpl.
  apply moves_of_spec_commands.
Qed.

(** C6: command generation is deterministic: two runs with the same
    cluster name and the same mapping emit the same sequence of argument
    vectors, whatever the executors answer. *)
Theorem emitted_commands_deterministic {World1 World2 : Type}
    (run_command1 : argv -> World1 -> cmd_result * World1) (now1 : World1 -> Z)
    (run_command2 : argv -> World2 -> cmd_result * World2) (now2 : World2 -> Z)
    (check_mode : bool) (cluster : string) (location : gmap string string)
    (w1 : World1) (w2 : World2) :
  emitted (run (create_and_move_buckets run_command1 cluster location) w1).2
  = emitted (run (create_and_move_buckets run_command2 cluster location) w2).2
  ∧ emitted (run (run_module run_command1 now1 check_mode cluster location) w1).2
    = emitted (run (run_module run_command2 now2 check_mode cluster location) w2).2.
Proof.
  unfold run. by rewrite !create_and_move_buckets_emitted, !run_module_emitted.
Qed.

(** C7: in check mode the module runs no command, does not go through
    validation, and returns a result whose [changed] is false, whatever the
    input. *)
Theorem check_mode_is_inert {World : Type}
    (run_command : argv -> World -> cmd_result * World) (now : World -> Z)
    (cluster : string) (location : gmap string string) (st : machine World) :
  run_module run_command now true cluster location st = (Ok initial_result, st)
  ∧ changed initial_result = false.
Proof. split; reflexivity. Qed.

(** C8: a mapping that passes the three checks has [host] and at least one
    more recognised level, so the loop body runs at least twice, the walk
    returns a fully defined tuple whose previous bucket type is not [None],
    and [run_module] does not leave through its "No valid CRUSH bucket
    type found" branch. *)
Theorem walk_after_validation_is_defined {World : Type}
    (run_command : argv -> World -> cmd_result * World) (now : World -> Z)
    (cluster : string) (location : gmap string string) (st : machine World) :
  validate location = None ->
  (∃ name p ps, present_levels location = ("host", name) :: p :: ps)
  ∧ (∃ cmds,
       emitted (create_and_move_buckets run_command cluster location st).2
       = emitted st ++ cmds
       ∧ (2 <= length (List.filter (is_subcommand "add-bucket") cmds))%nat)
  ∧ (∃ rc1 c out1 err1 level st',
       create_and_move_buckets run_command cluster location st
       = (Ok (rc1, c, out1, err1, Some level), st'))
  ∧ (∃ res rc1 b,
       (run_module run_command now false cluster location st).1
       = Raise (leave res rc1)
       ∧ stdout res = VBytes b
       ∧ stdout res ≠ VStr msg_no_valid_type).
Proof.
  intros Hval.
  destruct (validate_present _ Hval) as (hn & p & ps & Hps).
  split; [by exists hn, p, ps|].
  split.
  { exists (spec_commands cluster location).
    split; [apply create_and_move_buckets_emitted|].
    rewrite creates_of_spec_commands, length_map, Hps. simpl. lia. }
  split.
  - destruct (create_and_move_buckets_run run_command cluster location st)
      as (level & name & c & [[rc1 out1] err1] & _ & _ & Hrun);
      [by rewrite Hps|].
    by exists rc1, c, out1, err1, level,
         (exec_all run_command (spec_commands cluster location) st).
  - destruct (run_module_accepted run_command now cluster location st Hval)
      as (level & name & c & r & _ & _ & ->).
    by eexists _, _, _.
Qed.

Lemma walk_after_validation_is_defined_example1 :
  validate example1 = None
  ∧ ∃ rc1 c out1 err1 level st',
      create_and_move_buckets scripted "ceph" example1 (mkMachine [] [])
      = (Ok (rc1, c, out1, err1, Some level), st').
Proof.
  assert (validate example1 = None) as Hval by (vm_compute; reflexivity).
  split; [exact Hval|].
  apply (walk_after_validation_is_defined scripted script_clock "ceph"
           example1 (mkMachine [] []) Hval).
Defined.

(** C9: a key outside the ten levels counts for the length check but
    never makes the builder emit a command: adding such a key changes
    nothing, and the emitted commands are those of the mapping restricted
    to the recognised levels. *)
Theorem unrecognised_keys_ignored {World : Type}
    (run_command : argv -> World -> cmd_result * World) (now : World -> Z)
    (cluster : string) (location : gmap string string)
    (key name host : string) (st : machine World) :
  key ∉ crush_bucket_types ->
  emitted (create_and_move_buckets run_command cluster
             (<[key := name]> location) st).2
  = emitted (create_and_move_buckets run_command cluster location st).2
  ∧ emitted (create_and_move_buckets run_command cluster
               (restrict location) st).2
    = emitted (create_and_move_buckets run_command cluster location st).2
  ∧ emitted (run_module run_command now false cluster (restrict location) st).2
    = emitted (run_module run_command now false cluster location st).2
  ∧ validate ({["host" := host]} : gmap string string) = Some TooFewBuckets
  ∧ validate (<[key := name]> {["host" := host]}) = Some NoOtherLevel.
Proof.
  intros Hkey.
  assert (key ≠ "host") as Hne.
  { intros ->. apply Hkey, host_recognised. }
  rewrite !create_and_move_buckets_emitted, !run_module_emitted.
  rewrite spec_commands_restrict, run_commands_restrict.
  split; [|split; [done|split; [done|split]]].
  - f_equal. apply spec_commands_ext. intros level Hlevel.
    apply lookup_insert_ne. by intros ->.
  - unfold validate. by rewrite map_size_singleton.
  - destruct (validate _) as [[| |]|] eqn:Hval; [| |done|].
    + apply validate_Some in Hval. simpl in Hval.
      rewrite map_size_insert_None, map_size_singleton in Hval; [lia|].
      by apply lookup_singleton_ne.
    + apply validate_Some in Hval as [_ Hhost]. exfalso. apply Hhost.
      apply elem_of_dom. rewrite lookup_insert_ne by done.
      rewrite lookup_singleton_eq. by eexists.
    + apply validate_None in Hval as (_ & _ & (k & Hk & Hkh & Hkl)).
      apply elem_of_dom in Hk as [v Hv].
      destruct (decide (k = key)) as [->|Hkk]; [done|].
      rewrite lookup_insert_ne, lookup_singleton_ne in Hv by done. done.
Qed.

Lemma unrecognised_keys_ignored_example1 :
("zone" ∉ crush_bucket_types)
  ∧ emitted (create_and_move_buckets scripted "ceph"
               (<["zone" := "z1"]> example1) (mkMachine [] [])).2
    = emitted (create_and_move_buckets scripted "ceph" example1
                 (mkMachine [] [])).2
  ∧ validate (<["zone" := "z1"]> {["host" := "node1"]}) = Some NoOtherLevel.
Proof.
  assert ("zone" ∉ crush_bucket_types) as Hkey.
  { unfold crush_bucket_types. intros Hin.
    repeat (apply elem_of_cons in Hin as [Hin|Hin]; [discriminate Hin|]).
    by apply elem_of_nil in Hin. }
  split; [exact Hkey|].
  destruct (unrecognised_keys_ignored scripted script_clock "ceph" example1
              "zone" "z1" "node1" (mkMachine [] []) Hkey)
    as (Hins & _ & _ & _ & Hval).
  by split.
Defined.

(** C10: on a mapping that passes validation, outside check mode, the
    final result has [changed] true whatever the exit codes of the
    commands, also when every command failed. *)
Theorem changed_after_validation {World : Type}
    (run_command : argv -> World -> cmd_result * World) (now : World -> Z)
    (cluster : string) (location : gmap string string) (st : machine World) :
  validate location = None ->
  ∃ res,
    ((run_module run_command now false cluster location st).1
       = Raise (ExitJson res)
     ∨ (run_module run_command now false cluster location st).1
       = Raise (FailJson "non-zero return code" res))
    ∧ changed res = true.
Proof.
  intros Hval.
  destruct (run_module_accepted run_command now cluster location st Hval)
    as (level & name & c & r & _ & _ & ->).
  set (st' := exec_all run_command (spec_commands cluster location) st).
  exists (report (now (world st)) (now (world st')) c r).
  split; [|reflexivity]. unfold leave. simpl.
  destruct (r.1.1 =? 0)%Z; [by left|by right].
Qed.

Lemma changed_after_validation_all_failing :
  validate example3 = None
  ∧ ∃ res,
      ((run_module scripted script_clock false "ceph" example3
          (mkMachine (replicate 5 (1%Z, [], [])) [])).1
         = Raise (ExitJson res)
       ∨ (run_module scripted script_clock false "ceph" example3
            (mkMachine (replicate 5 (1%Z, [], [])) [])).1
         = Raise (FailJson "non-zero return code" res))
      ∧ changed res = true.
Proof.
  assert (validate example3 = None) as Hval by (vm_compute; reflexivity).
  split; [exact Hval|].
  apply (changed_after_validation scripted script_clock "ceph" example3
           (mkMachine (replicate 5 (1%Z, [], [])) []) Hval).
Defined.

(** * Further properties of the module *)

Lemma length_chain cluster ps : forall prev,
  length (chain cluster prev ps)
  = match prev with
    | Some _ => (2 * length ps)%nat
    | None => (2 * length ps - 1)%nat
    end.
Proof.
  induction ps as [|p ps IH]; intros prev.
  - by destruct prev.
  - destruct prev as [q|]; cbn [chain length app]; rewrite IH; lia.
Qed.

Lemma length_spec_commands cluster location :
  length (spec_commands cluster location)
  = (2 * length (present_levels location) - 1)%nat.
Proof. rewrite <- chain_spec_commands. apply length_chain. Qed.

Lemma length_present_among location levels :
  (length (present_among location levels) <= length levels)%nat.
Proof.
  induction levels as [|level levels IH]; [done|].
  destruct (location !! level) as [name|] eqn:Hlook.
  - rewrite (present_among_cons_Some _ _ _ _ Hlook). simpl. lia.
  - rewrite (present_among_cons_None _ _ _ Hlook). simpl. lia.
Qed.

Lemma chain_crush_command cluster ps : forall prev,
  Forall (crush_command cluster) (chain cluster prev ps).
Proof.
  induction ps as [|p ps IH]; intros prev; [constructor|].
  cbn [chain]. constructor.
  { eexists _, _, _. split; [reflexivity|by left]. }
  destruct prev as [q|]; simpl; [constructor|]; try apply IH.
  eexists _, _, _. split; [reflexivity|by right].
Qed.

Lemma add_bucket_in_chain cluster ps p : forall prev,
  p ∈ ps -> add_bucket cluster p ∈ chain cluster prev ps.
Proof.
  induction ps as [|p' ps IH]; intros prev Hin; [by apply elem_of_nil in Hin|].
  cbn [chain]. apply elem_of_cons in Hin as [->|Hin]; [apply list_elem_of_here|].
  apply list_elem_of_further, elem_of_app. right. by apply IH.
Qed.

Lemma last_chain cluster pre lower top : forall prev,
  last (chain cluster prev (pre ++ [lower; top]))
  = Some (move_under cluster lower top).
Proof.
  induction pre as [|p pre IH]; intros prev.
  - destruct prev; reflexivity.
  - cbn [app chain]. rewrite last_cons, last_app, IH. reflexivity.
Qed.

Lemma last_map {A B : Type} (f : A -> B) (l : list A) :
  last (map f l) = f <$> last l.
Proof.
  induction l as [|a [|b l] IH]; [done|done|].
  cbn [map] in *. by rewrite !last_cons_cons.
Qed.

Lemma split_last_two {A : Type} (a b : A) (l : list A) :
  ∃ pre lower top, a :: b :: l = pre ++ [lower; top].
Proof.
  revert a b. induction l as [|c l IH]; intros a b.
  - by exists [], a, b.
  - destruct (IH b c) as (pre & lower & top & Heq).
    exists (a :: pre), lower, top. simpl. by rewrite Heq.
Qed.

(** X1: [get_ansible_var] never raises and touches nothing: it answers
    with the value stored under the variable, or [None] when the location
    dictionary has no such key. *)
Theorem get_ansible_var_lookup {World : Type} (module : ansible_module)
    (variable : string) (st : machine World) :
  get_ansible_var module variable st
  = (Ok (params_location module !! variable), st).
Proof.
  unfold get_ansible_var, contains, bind, subscript.
  by destruct (params_location module !! variable).
Qed.

(** X2: called on a mapping none of whose keys is a recognised level,
    [create_and_move_buckets] runs no command and fails at its [return]
    with an unbound [rc]. *)
Theorem walk_without_levels_is_unbound {World : Type}
    (run_command : argv -> World -> cmd_result * World)
    (cluster : string) (location : gmap string string) (st : machine World) :
  (forall level, level ∈ crush_bucket_types -> location !! level = None) ->
  create_and_move_buckets run_command cluster location st
  = (Raise (UnboundLocalError "rc"), st).
Proof.
  intros Hnone. apply create_and_move_buckets_unbound.
  destruct (present_levels location) as [|[level name] ps] eqn:Hps; [done|].
  assert ((level, name) ∈ present_levels location) as Hin
    by (rewrite Hps; apply list_elem_of_here).
  apply elem_of_present_among in Hin as [Hlevel Hlook].
  rewrite (Hnone level Hlevel) in Hlook. discriminate Hlook.
Qed.

Lemma walk_without_levels_is_unbound_zone :
  (forall level, level ∈ crush_bucket_types ->
     ({["zone" := "z1"]} : gmap string string) !! level = None)
  ∧ create_and_move_buckets scripted "ceph" {["zone" := "z1"]}
      (mkMachine [] [])
    = (Raise (UnboundLocalError "rc"), mkMachine [] []).
Proof.
  assert (forall level, level ∈ crush_bucket_types ->
            ({["zone" := "z1"]} : gmap string string) !! level = None)
    as Hnone.
  { intros level Hin. unfold crush_bucket_types in Hin.
    repeat (apply elem_of_cons in Hin as [->|Hin]; [reflexivity|]).
    by apply elem_of_nil in Hin. }
  split; [exact Hnone|].
  apply (walk_without_levels_is_unbound scripted "ceph" _ _ Hnone).
Defined.

(** X3: as soon as one recognised level is a key of the mapping, the walk
    returns normally with a recognised level as previous bucket type, and
    the add-bucket of every such key is among the commands it ran. *)
Theorem walk_creates_every_level {World : Type}
    (run_command : argv -> World -> cmd_result * World)
    (cluster : string) (location : gmap string string)
    (level name : string) (st : machine World) :
  level ∈ crush_bucket_types ->
  location !! level = Some name ->
  ∃ rc1 c out1 err1 top st',
    create_and_move_buckets run_command cluster location st
    = (Ok (rc1, c, out1, err1, Some top), st')
    ∧ top ∈ crush_bucket_types
    ∧ generate_cmd cluster "add-bucket" name level ∈ emitted st'.
Proof.
  intros Hlevel Hlook.
  assert ((level, name) ∈ present_levels location) as Hin
    by by apply elem_of_present_among.
  destruct (create_and_move_buckets_run run_command cluster location st)
    as (top & tname & c & [[rc1 out1] err1] & Hlast & _ & Hrun).
  { intros Hnil. rewrite Hnil in Hin. by apply elem_of_nil in Hin. }
  exists rc1, c, out1, err1, top,
    (exec_all run_command (spec_commands cluster location) st).
  split; [done|]. split.
  - apply last_Some_elem_of in Hlast.
    by apply elem_of_present_among in Hlast as [? _].
  - rewrite emitted_exec_all. apply elem_of_app. right.
    rewrite <- chain_spec_commands.
    by apply (add_bucket_in_chain cluster _ (level, name)).
Qed.

Lemma walk_creates_every_level_example3 :
  "rack" ∈ crush_bucket_types
  ∧ example3 !! "rack" = Some "rackA"
  ∧ ∃ rc1 c out1 err1 top st',
      create_and_move_buckets scripted "ceph" example3 (mkMachine [] [])
      = (Ok (rc1, c, out1, err1, Some top), st')
      ∧ top ∈ crush_bucket_types
      ∧ generate_cmd "ceph" "add-bucket" "rackA" "rack" ∈ emitted st'.
Proof.
  assert ("rack" ∈ crush_bucket_types) as Hlevel.
  { unfold crush_bucket_types. do 2 apply list_elem_of_further.
    apply list_elem_of_here. }
  assert (example3 !! "rack" = Some "rackA") as Hlook
    by (vm_compute; reflexivity).
  split; [exact Hlevel|]. split; [exact Hlook|].
  apply (walk_creates_every_level scripted "ceph" example3 "rack" "rackA"
           (mkMachine [] []) Hlevel Hlook).
Defined.

(** X4: a run on a mapping that passes validation executes one create
    per recognised key and one move less, that is between three and
    nineteen commands. *)
Theorem run_command_count {World : Type}
    (run_command : argv -> World -> cmd_result * World) (now : World -> Z)
    (cluster : string) (location : gmap string string) (w : World) :
  validate location = None ->
  let n := length (present_levels location) in
  let cmds :=
    emitted (run (run_module run_command now false cluster location) w).2 in
  (length cmds + 1 = 2 * n)%nat
  ∧ (2 <= n <= 10)%nat
  ∧ (3 <= length cmds <= 19)%nat.
Proof.
  intros Hval n cmds.
  assert (cmds = spec_commands cluster location) as ->.
  { unfold cmds, run. rewrite run_module_emitted. unfold run_commands.
    by rewrite Hval. }
  rewrite length_spec_commands. fold n.
  assert (2 <= n)%nat.
  { destruct (validate_present _ Hval) as (hn & p & ps & Hps).
    unfold n. rewrite Hps. simpl. lia. }
  assert (n <= 10)%nat
    by apply (length_present_among location crush_bucket_types).
  lia.
Qed.

Lemma run_command_count_example3 :
  validate example3 = None
  ∧ length (emitted (run (run_module scripted script_clock false "ceph"
                            example3) []).2) = 5%nat.
Proof.
  assert (validate example3 = None) as Hval by (vm_compute; reflexivity).
  split; [exact Hval|].
  destruct (run_command_count scripted script_clock "ceph" example3 [] Hval)
    as (Hcount & _ & _).
  assert (length (present_levels example3) = 3%nat) as Hn
    by (vm_compute; reflexivity).
  rewrite Hn in Hcount. lia.
Defined.

(** X5: whatever its input, the module only ever runs command lines of
    the form [ceph --cluster <cluster> osd crush add-bucket|move _ _] for
    the cluster it was given, and it leaves the commands run before it
    in place. *)
Theorem run_module_only_crush_commands {World : Type}
    (run_command : argv -> World -> cmd_result * World) (now : World -> Z)
    (check_mode : bool) (cluster : string) (location : gmap string string)
    (st : machine World) :
  ∃ cmds,
    emitted (run_module run_command now check_mode cluster location st).2
    = emitted st ++ cmds
    ∧ Forall (crush_command cluster) cmds.
Proof.
  exists (run_commands check_mode cluster location).
  split; [apply run_module_emitted|].
  unfold run_commands. destruct check_mode; [constructor|].
  destruct (validate location); [constructor|].
  rewrite <- chain_spec_commands. apply chain_crush_command.
Qed.

(** X6: on a mapping that passes validation the first command creates the
    host bucket, the last one moves the bucket of the second highest
    present level under the highest, and this last move is the [cmd] of
    the result. *)
Theorem run_starts_at_host_ends_at_top {World : Type}
    (run_command : argv -> World -> cmd_result * World) (now : World -> Z)
    (cluster : string) (location : gmap string string) (w : World) :
  validate location = None ->
  let out := run (run_module run_command now false cluster location) w in
  ∃ name pre lower top res,
    location !! "host" = Some name
    ∧ present_levels location = pre ++ [lower; top]
    ∧ head (emitted out.2) = Some (generate_cmd cluster "add-bucket" name "host")
    ∧ last (emitted out.2) = Some (move_under cluster lower top)
    ∧ (out.1 = Raise (ExitJson res)
       ∨ out.1 = Raise (FailJson "non-zero return code" res))
    ∧ cmd res = Some (move_under cluster lower top).
Proof.
  intros Hval out.
  destruct (validate_present _ Hval) as (name & p & ps & Hps).
  assert (location !! "host" = Some name) as Hhost.
  { assert (("host", name) ∈ present_levels location) as Hin
      by (rewrite Hps; apply list_elem_of_here).
    by apply elem_of_present_among in Hin as [_ ?]. }
  assert (head (spec_commands cluster location)
          = Some (generate_cmd cluster "add-bucket" name "host")) as Hhead.
  { unfold spec_commands. by rewrite Hps. }
  destruct (split_last_two ("host", name) p ps) as (pre & lower & top & Hsplit).
  rewrite Hsplit in Hps.
  destruct (run_module_accepted run_command now cluster location
              (mkMachine w []) Hval)
    as (? & ? & c & r & _ & Hcall & Hmod).
  set (st' := exec_all run_command (spec_commands cluster location)
                (mkMachine w [])) in *.
  assert (emitted out.2 = spec_commands cluster location) as Hcmds.
  { unfold out, run. rewrite run_module_emitted. unfold run_commands.
    by rewrite Hval. }
  assert (last (spec_commands cluster location)
          = Some (move_under cluster lower top)) as Hlastc.
  { rewrite <- chain_spec_commands, Hps. apply last_chain. }
  assert (c = move_under cluster lower top) as ->.
  { assert (emitted st' = spec_commands cluster location) as Hem
      by (unfold st'; by rewrite emitted_exec_all).
    unfold emitted in Hem. rewrite <- Hem, last_map, Hcall in Hlastc.
    simpl in Hlastc. by injection Hlastc. }
  exists name, pre, lower, top,
    (report (now w) (now (world st')) (move_under cluster lower top) r).
  split; [done|]. split; [done|]. rewrite Hcmds. split; [done|].
  split; [done|]. split; [|reflexivity].
  unfold out, run. rewrite Hmod. unfold leave. simpl.
  destruct (r.1.1 =? 0)%Z; [by left|by right].
Qed.

Lemma run_starts_at_host_ends_at_top_example3 :
  validate example3 = None
  ∧ ∃ name pre lower top res,
      example3 !! "host" = Some name
      ∧ present_levels example3 = pre ++ [lower; top]
      ∧ head (emitted (run (run_module scripted script_clock false "ceph"
                              example3) []).2)
        = Some (generate_cmd "ceph" "add-bucket" name "host")
      ∧ last (emitted (run (run_module scripted script_clock false "ceph"
                              example3) []).2)
        = Some (move_under "ceph" lower top)
      ∧ ((run (run_module scripted script_clock false "ceph" example3) []).1
           = Raise (ExitJson res)
         ∨ (run (run_module scripted script_clock false "ceph" example3) []).1
           = Raise (FailJson "non-zero return code" res))
      ∧ cmd res = Some (move_under "ceph" lower top).
Proof.
  assert (validate example3 = None) as Hval by (vm_compute; reflexivity).
  split; [exact Hval|].
  apply (run_starts_at_host_ends_at_top scripted script_clock "ceph"
           example3 [] Hval).
Defined.

(** X7: the length check adds nothing to acceptance: a mapping passes
    validation, and commands are run, exactly when [host] and another
    recognised level are among its keys. *)
Theorem acceptance_needs_host_and_level {World : Type}
    (run_command : argv -> World -> cmd_result * World) (now : World -> Z)
    (cluster : string) (location : gmap string string) (w : World) :
  (validate location = None
   <-> "host" ∈ dom location ∧ has_other_level location)
  ∧ (emitted (run (run_module run_command now false cluster location) w).2 ≠ []
     <-> "host" ∈ dom location ∧ has_other_level location).
Proof.
  assert (validate location = None
          <-> "host" ∈ dom location ∧ has_other_level location) as Hiff.
  { rewrite validate_None. split; [by intros (_ & ? & ?)|].
    intros [Hhost Hother]. split; [|done].
    destruct Hother as (k & Hk & Hne & _).
    apply elem_of_dom in Hhost. apply elem_of_dom in Hk.
    rewrite <- (lookup_delete_ne location "host" k) in Hk by done.
    apply map_size_ne_0_lookup_2 in Hk.
    rewrite (map_size_delete_Some _ _ Hhost) in Hk. lia. }
  split; [exact Hiff|]. rewrite <- Hiff.
  unfold run. rewrite run_module_emitted. unfold run_commands. simpl.
  destruct (validate location) as [r|] eqn:Hval.
  - split; [done|discriminate].
  - split; [done|]. intros _.
    destruct (validate_present _ Hval) as (hn & p & ps & Hps).
    unfold spec_commands. by rewrite Hps.
Qed.


(** X9: on a mapping that passes validation, if the last command run
    came back with exit code 0 the run ends through [exit_json] with rc 0
    and [changed] true, whatever the earlier commands returned. *)
Theorem last_success_is_reported {World : Type}
    (run_command : argv -> World -> cmd_result * World) (now : World -> Z)
    (cluster : string) (location : gmap string string) (st : machine World)
    (c : argv) (r : cmd_result) :
  validate location = None ->
  last (trace (run_module run_command now false cluster location st).2)
    = Some (c, r) ->
  r.1.1 = 0%Z ->
  ∃ res,
    (run_module run_command now false cluster location st).1
      = Raise (ExitJson res)
    ∧ rc res = VInt 0
    ∧ cmd res = Some c
    ∧ changed res = true.
Proof.
  intros Hval Hlast Hrc.
  destruct (run_module_accepted run_command now cluster location st Hval)
    as (level & name & c' & r' & _ & Hcall & Hmod).
  rewrite Hmod in Hlast |- *. simpl in Hlast |- *.
  assert (c' = c ∧ r' = r) as [-> ->] by (split; congruence).
  eexists. unfold leave. rewrite Hrc. simpl.
  split; [reflexivity|]. simpl. by rewrite Hrc.
Qed.

Lemma last_success_is_reported_after_failure :
  validate example1 = None
  ∧ last (trace (run_module scripted script_clock false "ceph" example1
                   (mkMachine [(1%Z, [], []); (1%Z, [], []); (0%Z, [], [])] [])).2)
    = Some (generate_cmd "ceph" "move" "node1" "rack=rackA", (0%Z, [], []))
  ∧ (0%Z, ([] : bytes), ([] : bytes)).1.1 = 0%Z
  ∧ ∃ res,
      (run_module scripted script_clock false "ceph" example1
         (mkMachine [(1%Z, [], []); (1%Z, [], []); (0%Z, [], [])] [])).1
        = Raise (ExitJson res)
      ∧ rc res = VInt 0
      ∧ cmd res = Some (generate_cmd "ceph" "move" "node1" "rack=rackA")
      ∧ changed res = true.
Proof.
  assert (validate example1 = None) as Hval by (vm_compute; reflexivity).
  assert (last (trace (run_module scripted script_clock false "ceph" example1
             (mkMachine [(1%Z, [], []); (1%Z, [], []); (0%Z, [], [])] [])).2)
          = Some (generate_cmd "ceph" "move" "node1" "rack=rackA",
                  (0%Z, [], []))) as Hlast by (vm_compute; reflexivity).
  assert ((0%Z, ([] : bytes), ([] : bytes)).1.1 = 0%Z) as Hrc by reflexivity.
  split; [exact Hval|]. split; [exact Hlast|]. split; [exact Hrc|].
  exact (last_success_is_reported scripted script_clock "ceph" example1 _ _ _
           Hval Hlast Hrc).
Defined.

(** ** Stripping the command output *)

Lemma existsb_crlf x : existsb (Byte.eqb x) crlf = true <-> is_crlf x.
Proof.
  unfold crlf, is_crlf. cbn [existsb].
  rewrite orb_false_r, orb_true_iff. split.
  - intros [H|H]; apply Byte.byte_dec_bl in H; [left|right]; exact H.
  - intros [H|H]; [left|right]; apply Byte.byte_dec_lb; exact H.
Qed.

Lemma lstrip_split chars b :
  ∃ pre, b = pre ++ lstrip chars b
         ∧ Forall (fun x => existsb (Byte.eqb x) chars = true) pre.
Proof.
  induction b as [|x b (pre & Heq & Hall)]; [by exists []|].
  simpl. destruct (existsb (Byte.eqb x) chars) eqn:Hx.
  - exists (x :: pre). split; [simpl; by rewrite <- Heq|by constructor].
  - by exists [].
Qed.

Lemma lstrip_head chars b x :
  head (lstrip chars b) = Some x -> existsb (Byte.eqb x) chars = false.
Proof.
  induction b as [|y b IH]; [done|]. simpl.
  destruct (existsb (Byte.eqb y) chars) eqn:Hy; [done|].
  simpl. by intros [= <-].
Qed.

Lemma last_rev {A : Type} (l : list A) : last (rev l) = head l.
Proof. destruct l as [|a l]; [done|]. simpl. apply last_snoc. Qed.

Lemma rstrip_stripped_of b : stripped_of b (rstrip crlf b).
Proof.
  unfold stripped_of, rstrip. split.
  - destruct (lstrip_split crlf (rev b)) as (pre & Heq & Hall).
    exists (rev pre). split.
    + rewrite <- rev_app_distr, <- Heq. by rewrite rev_involutive.
    + apply List.Forall_rev. eapply Forall_impl; [exact Hall|].
      intros x Hx. by apply existsb_crlf.
  - intros x Hlast Hx. rewrite last_rev in Hlast.
    apply lstrip_head in Hlast. apply existsb_crlf in Hx. congruence.
Qed.

Lemma stripped_of_verbatim raw b :
  stripped_of raw b -> (∀ x, last raw = Some x -> ¬ is_crlf x) -> b = raw.
Proof.
  intros [(suffix & Heq & Hall) _] Hraw. subst raw.
  destruct (last suffix) as [x|] eqn:Hlast.
  - exfalso. apply (Hraw x).
    + rewrite last_app, Hlast. done.
    + apply last_Some_elem_of in Hlast.
      by apply (proj1 (Forall_forall _ _) Hall).
  - apply last_None in Hlast as ->. by rewrite app_nil_r.
Qed.

Lemma run_module_report {World : Type}
    (run_command : argv -> World -> cmd_result * World) (now : World -> Z)
    (cluster : string) (location : gmap string string) (st : machine World) :
  validate location = None ->
  ∃ c r res,
    last (trace (run_module run_command now false cluster location st).2)
      = Some (c, r)
    ∧ ((run_module run_command now false cluster location st).1
         = Raise (ExitJson res)
       ∨ (run_module run_command now false cluster location st).1
         = Raise (FailJson "non-zero return code" res))
    ∧ stdout res = VBytes (rstrip crlf r.1.2)
    ∧ stderr res = VBytes (rstrip crlf r.2).
Proof.
  intros Hval.
  destruct (run_module_accepted run_command now cluster location st Hval)
    as (level & name & c & r & _ & Hcall & Hmod).
  set (st' := exec_all run_command (spec_commands cluster location) st) in *.
  exists c, r, (report (now (world st)) (now (world st')) c r).
  rewrite Hmod. simpl. split; [done|]. split; [|done].
  unfold leave. destruct (r.1.1 =? 0)%Z; [by left|by right].
Qed.

(** X10: the stdout and stderr of the result are the output of the last
    command without its trailing carriage returns and line feeds: what was
    cut is made of those two bytes only, and what is left does not end
    with one. *)
Theorem reported_output_is_stripped {World : Type}
    (run_command : argv -> World -> cmd_result * World) (now : World -> Z)
    (cluster : string) (location : gmap string string) (st : machine World) :
  validate location = None ->
  let out := run_module run_command now false cluster location st in
  ∃ c r res b_out b_err,
    last (trace out.2) = Some (c, r)
    ∧ (out.1 = Raise (ExitJson res)
       ∨ out.1 = Raise (FailJson "non-zero return code" res))
    ∧ stdout res = VBytes b_out ∧ stripped_of r.1.2 b_out
    ∧ stderr res = VBytes b_err ∧ stripped_of r.2 b_err.
Proof.
  intros Hval out.
  destruct (run_module_report run_command now cluster location st Hval)
    as (c & r & res & Hcall & Hout & Hstdout & Hstderr).
  exists c, r, res, (rstrip crlf r.1.2), (rstrip crlf r.2).
  split; [done|]. split; [done|].
  split; [done|]. split; [apply rstrip_stripped_of|].
  split; [done|apply rstrip_stripped_of].
Qed.

Lemma reported_output_is_stripped_example1 :
  validate example1 = None
  ∧ let out :=
      run_module scripted script_clock false "ceph" example1
        (mkMachine
           [ (0%Z, [], []); (0%Z, [], []);
             (0%Z, [Byte.x6f; Byte.x6b; Byte.x0d; Byte.x0a; Byte.x0a],
              [Byte.x0a]) ] []) in
    ∃ c r res b_out b_err,
      last (trace out.2) = Some (c, r)
      ∧ (out.1 = Raise (ExitJson res)
         ∨ out.1 = Raise (FailJson "non-zero return code" res))
      ∧ stdout res = VBytes b_out ∧ stripped_of r.1.2 b_out
      ∧ stderr res = VBytes b_err ∧ stripped_of r.2 b_err.
Proof.
  assert (validate example1 = None) as Hval by (vm_compute; reflexivity).
  split; [exact Hval|].
  exact (reported_output_is_stripped scripted script_clock "ceph" example1
           (mkMachine
              [ (0%Z, [], []); (0%Z, [], []);
                (0%Z, [Byte.x6f; Byte.x6b; Byte.x0d; Byte.x0a; Byte.x0a],
                 [Byte.x0a]) ] []) Hval).
Defined.

(** X11: when the output of the last command does not end with a carriage
    return or a line feed, the result carries it unchanged. *)
Theorem reported_output_verbatim {World : Type}
    (run_command : argv -> World -> cmd_result * World) (now : World -> Z)
    (cluster : string) (location : gmap string string) (st : machine World)
    (c : argv) (r : cmd_result) :
  validate location = None ->
  last (trace (run_module run_command now false cluster location st).2)
    = Some (c, r) ->
  (∀ x, last r.1.2 = Some x -> ¬ is_crlf x) ->
  ∃ res,
    ((run_module run_command now false cluster location st).1
       = Raise (ExitJson res)
     ∨ (run_module run_command now false cluster location st).1
       = Raise (FailJson "non-zero return code" res))
    ∧ stdout res = VBytes r.1.2.
Proof.
  intros Hval Hlast Hraw.
  destruct (run_module_report run_command now cluster location st Hval)
    as (c' & r' & res & Hcall & Hout & Hstd & _).
  rewrite Hcall in Hlast. injection Hlast as -> ->.
  exists res. split; [done|]. rewrite Hstd. f_equal.
  apply stripped_of_verbatim; [apply rstrip_stripped_of|done].
Qed.

Lemma reported_output_verbatim_example1 :
  validate example1 = None
  ∧ last (trace (run_module scripted script_clock false "ceph" example1
                   (mkMachine
                      [ (0%Z, [], []); (0%Z, [], []);
                        (0%Z, [Byte.x6f; Byte.x6b], []) ] [])).2)
    = Some (generate_cmd "ceph" "move" "node1" "rack=rackA",
            (0%Z, [Byte.x6f; Byte.x6b], []))
  ∧ (∀ x, last [Byte.x6f; Byte.x6b] = Some x -> ¬ is_crlf x)
  ∧ ∃ res,
      ((run_module scripted script_clock false "ceph" example1
          (mkMachine
             [ (0%Z, [], []); (0%Z, [], []);
               (0%Z, [Byte.x6f; Byte.x6b], []) ] [])).1
         = Raise (ExitJson res)
       ∨ (run_module scripted script_clock false "ceph" example1
            (mkMachine
               [ (0%Z, [], []); (0%Z, [], []);
                 (0%Z, [Byte.x6f; Byte.x6b], []) ] [])).1
         = Raise (FailJson "non-zero return code" res))
      ∧ stdout res = VBytes [Byte.x6f; Byte.x6b].
Proof.
  assert (validate example1 = None) as Hval by (vm_compute; reflexivity).
  assert (last (trace (run_module scripted script_clock false "ceph" example1
                   (mkMachine
                      [ (0%Z, [], []); (0%Z, [], []);
                        (0%Z, [Byte.x6f; Byte.x6b], []) ] [])).2)
          = Some (generate_cmd "ceph" "move" "node1" "rack=rackA",
                  (0%Z, [Byte.x6f; Byte.x6b], []))) as Hlast
    by (vm_compute; reflexivity).
  assert (∀ x, last [Byte.x6f; Byte.x6b] = Some x -> ¬ is_crlf x) as Hraw.
  { intros x Hx. injection Hx as <-. intros [H|H]; discriminate H. }
  split; [exact Hval|]. split; [exact Hlast|]. split; [exact Hraw|].
  exact (reported_output_verbatim scripted script_clock "ceph" example1 _ _ _
           Hval Hlast Hraw).
Defined.

Lemma specifier_inj (level1 level2 name1 name2 : string) :
  level1 ∈ crush_bucket_types ->
  level2 ∈ crush_bucket_types ->
  level1 +:+ "=" +:+ name1 = level2 +:+ "=" +:+ name2 ->
  level1 = level2 ∧ name1 = name2.
Proof.
  unfold crush_bucket_types. intros H1 H2 Heq.
  repeat (apply elem_of_cons in H1 as [->|H1]);
    try (by apply elem_of_nil in H1);
    repeat (apply elem_of_cons in H2 as [->|H2]);
    try (by apply elem_of_nil in H2);
    first [ discriminate Heq
          | cbv [String.append] in Heq; split; congruence ].
Qed.

(** X12: the parent specifier of a move, [level=name] with a recognised
    level, determines both the level and the bucket name, whatever
    characters the name contains: two moves of the walk with the same
    command line have the same child name, parent level and parent
    name. *)
Theorem parent_specifier_unambiguous (cluster : string)
    (child1 parent1 child2 parent2 : string * string) :
  parent1.1 ∈ crush_bucket_types ->
  parent2.1 ∈ crush_bucket_types ->
  move_under cluster child1 parent1 = move_under cluster child2 parent2 ->
  child1.2 = child2.2 ∧ parent1 = parent2.
Proof.
  intros H1 H2 Heq. unfold move_under, generate_cmd in Heq.
  injection Heq as Hchild Hparent.
  destruct (specifier_inj _ _ _ _ H1 H2 Hparent) as [Hl Hn].
  split; [done|]. destruct parent1, parent2; simpl in *. congruence.
Qed.

Lemma parent_specifier_unambiguous_rack :
  ("rack", "a=b").1 ∈ crush_bucket_types
  ∧ ("rack", "a=b").1 ∈ crush_bucket_types
  ∧ move_under "ceph" ("host", "node1") ("rack", "a=b")
    = move_under "ceph" ("chassis", "node1") ("rack", "a=b")
  ∧ ("host", "node1").2 = ("chassis", "node1").2
  ∧ ("rack", "a=b") = ("rack", "a=b").
Proof.
  assert (("rack", "a=b").1 ∈ crush_bucket_types) as Hlevel.
  { unfold crush_bucket_types. do 2 apply list_elem_of_further.
    apply list_elem_of_here. }
  split; [exact Hlevel|]. split; [exact Hlevel|]. split; [reflexivity|].
  exact (parent_specifier_unambiguous "ceph" ("host", "node1") ("rack", "a=b")
           ("chassis", "node1") ("rack", "a=b") Hlevel Hlevel eq_refl).
Defined.

(** ** Creates come before moves *)

Lemma moves_follow_creates_chain cluster ps : forall q seen pre mv post,
  add_bucket cluster q ∈ seen ->
  chain cluster (Some q) ps = pre ++ mv :: post ->
  is_subcommand "move" mv = true ->
  ∃ child parent,
    mv = move_under cluster child parent
    ∧ add_bucket cluster child ∈ seen ++ pre
    ∧ add_bucket cluster parent ∈ seen ++ pre.
Proof.
  induction ps as [|p ps IH]; intros q seen pre mv post Hseen Heq Hmove.
  - by destruct pre.
  - cbn [chain app] in Heq. destruct pre as [|a [|b pre]].
    + injection Heq as <- _. discriminate Hmove.
    + injection Heq as <- <- _. exists q, p. split; [done|].
      split; apply elem_of_app; [by left|right; apply list_elem_of_here].
    + injection Heq as <- <- Heq.
      destruct (IH p (seen ++ [add_bucket cluster p; move_under cluster q p])
                  pre mv post) as (child & parent & -> & Hc & Hp);
        [|done|done|].
      { apply elem_of_app. right. apply list_elem_of_here. }
      exists child, parent. split; [done|].
      rewrite <- !app_assoc in Hc, Hp. by split.
Qed.

(** X13: the walk never moves a bucket before having created it and the
    bucket it is moved under: each move in the command sequence is
    preceded by the add-bucket of its child and of its parent. *)
Theorem moves_follow_creates {World : Type}
    (run_command : argv -> World -> cmd_result * World)
    (cluster : string) (location : gmap string string) (w : World)
    (pre post : list argv) (mv : argv) :
  emitted (run (create_and_move_buckets run_command cluster location) w).2
    = pre ++ mv :: post ->
  is_subcommand "move" mv = true ->
  ∃ child parent,
    mv = move_under cluster child parent
    ∧ add_bucket cluster child ∈ pre
    ∧ add_bucket cluster parent ∈ pre.
Proof.
  unfold run. rewrite create_and_move_buckets_emitted. simpl.
  rewrite <- chain_spec_commands.
  destruct (present_levels location) as [|p ps]; intros Heq Hmove.
  - by destruct pre.
  - cbn [chain app] in Heq. destruct pre as [|a pre].
    + injection Heq as <- _. discriminate Hmove.
    + injection Heq as <- Heq.
      destruct (moves_follow_creates_chain cluster ps p [add_bucket cluster p]
                  pre mv post) as (child & parent & -> & Hc & Hp);
        [apply list_elem_of_here|done|done|].
      by exists child, parent.
Qed.

Lemma moves_follow_creates_example1 :
  emitted (run (create_and_move_buckets scripted "ceph" example1) []).2
    = [ generate_cmd "ceph" "add-bucket" "node1" "host";
        generate_cmd "ceph" "add-bucket" "rackA" "rack" ]
      ++ generate_cmd "ceph" "move" "node1" "rack=rackA" :: []
  ∧ is_subcommand "move" (generate_cmd "ceph" "move" "node1" "rack=rackA")
    = true
  ∧ ∃ child parent,
      generate_cmd "ceph" "move" "node1" "rack=rackA"
      = move_under "ceph" child parent
      ∧ add_bucket "ceph" child
        ∈ [ generate_cmd "ceph" "add-bucket" "node1" "host";
            generate_cmd "ceph" "add-bucket" "rackA" "rack" ]
      ∧ add_bucket "ceph" parent
        ∈ [ generate_cmd "ceph" "add-bucket" "node1" "host";
            generate_cmd "ceph" "add-bucket" "rackA" "rack" ].
Proof.
  assert (emitted (run (create_and_move_buckets scripted "ceph" example1) []).2
          = [ generate_cmd "ceph" "add-bucket" "node1" "host";
              generate_cmd "ceph" "add-bucket" "rackA" "rack" ]
            ++ generate_cmd "ceph" "move" "node1" "rack=rackA" :: [])
    as Heq by (vm_compute; reflexivity).
  assert (is_subcommand "move"
            (generate_cmd "ceph" "move" "node1" "rack=rackA") = true)
    as Hmove by reflexivity.
  split; [exact Heq|]. split; [exact Hmove|].
  exact (moves_follow_creates scripted "ceph" example1 [] _ _ _ Heq Hmove).
Defined.

(** ** No command line twice *)

Lemma NoDup_crush_bucket_types : NoDup crush_bucket_types.
Proof.
  unfold crush_bucket_types.
  repeat (apply NoDup_cons; split;
          [intros Hin;
           repeat (apply elem_of_cons in Hin as [Hin|Hin];
                   [discriminate Hin|]);
           by apply elem_of_nil in Hin|]).
  apply NoDup_nil_2.
Qed.

Lemma NoDup_present_among location levels :
  NoDup levels -> NoDup (fst <$> present_among location levels).
Proof.
  induction levels as [|level levels IH]; intros Hnd; [constructor|].
  apply NoDup_cons in Hnd as [Hnotin Hnd].
  destruct (location !! level) as [name|] eqn:Hlook.
  - rewrite (present_among_cons_Some _ _ _ _ Hlook). cbn [fmap list_fmap].
    apply NoDup_cons. split; [|by apply IH].
    intros Hin. apply list_elem_of_fmap in Hin as ([l n] & Heq & Hin).
    simpl in Heq. subst l.
    by apply elem_of_present_among in Hin as [? _].
  - rewrite (present_among_cons_None _ _ _ Hlook). by apply IH.
Qed.

Lemma present_among_recognised location levels :
  Forall (fun p => p.1 ∈ levels) (present_among location levels).
Proof.
  apply Forall_forall. intros [level name] Hin.
  by apply elem_of_present_among in Hin as [? _].
Qed.

Lemma NoDup_split_filter {A : Type} (P : A -> bool) (l : list A) :
  NoDup (List.filter P l) ->
  NoDup (List.filter (fun x => negb (P x)) l) ->
  NoDup l.
Proof.
  induction l as [|a l IH]; intros Hyes Hno; [constructor|].
  simpl in Hyes, Hno. apply NoDup_cons.
  destruct (P a) eqn:Ha; simpl in Hyes, Hno.
  - apply NoDup_cons in Hyes as [Hnotin Hyes]. split; [|by apply IH].
    intros Hin. apply Hnotin, list_elem_of_In, filter_In.
    split; [by apply list_elem_of_In|done].
  - apply NoDup_cons in Hno as [Hnotin Hno]. split; [|by apply IH].
    intros Hin. apply Hnotin, list_elem_of_In, filter_In.
    split; [by apply list_elem_of_In|by rewrite Ha].
Qed.

Lemma filter_not_move_chain cluster ps : forall prev,
  List.filter (fun c => negb (is_subcommand "move" c)) (chain cluster prev ps)
  = map (add_bucket cluster) ps.
Proof.
  induction ps as [|p ps IH]; intros prev; [reflexivity|].
  destruct prev as [q|]; simpl; by rewrite IH.
Qed.

Lemma NoDup_add_buckets cluster ps :
  NoDup (fst <$> ps) -> NoDup (map (add_bucket cluster) ps).
Proof.
  induction ps as [|p ps IH]; intros Hnd; [constructor|].
  cbn [fmap list_fmap] in Hnd. apply NoDup_cons in Hnd as [Hnotin Hnd].
  cbn [map]. apply NoDup_cons. split; [|by apply IH].
  intros Hin. apply Hnotin.
  change (map (add_bucket cluster) ps) with (add_bucket cluster <$> ps) in Hin.
  apply list_elem_of_fmap in Hin as (p' & Heq & Hin).
  unfold add_bucket, generate_cmd in Heq. injection Heq as _ Hlevel.
  rewrite Hlevel. by apply list_elem_of_fmap_2.
Qed.

Lemma NoDup_moves cluster parents : forall children,
  NoDup (fst <$> parents) ->
  Forall (fun p => p.1 ∈ crush_bucket_types) parents ->
  NoDup (zip_with (move_under cluster) children parents).
Proof.
  induction parents as [|p parents IH]; intros children Hnd Hrec.
  - destruct children; constructor.
  - destruct children as [|c children]; [constructor|].
    cbn [fmap list_fmap] in Hnd. apply NoDup_cons in Hnd as [Hnotin Hnd].
    apply Forall_cons in Hrec as [Hp Hrec].
    cbn [zip_with]. apply NoDup_cons. split; [|by apply IH].
    intros Hin. apply elem_of_zip_with in Hin as (c' & p' & Heq & _ & Hin').
    apply Hnotin.
    assert (p'.1 ∈ crush_bucket_types) as Hp'
      by by apply (proj1 (Forall_forall _ _) Hrec).
    unfold move_under, generate_cmd in Heq. injection Heq as _ Hparent.
    destruct (specifier_inj _ _ _ _ Hp Hp' Hparent) as [-> _].
    by apply list_elem_of_fmap_2.
Qed.

(** X14: within one walk no command line is run twice: the creates differ
    by their level, the moves by their parent, whatever the bucket
    names. *)
Theorem walk_commands_distinct {World : Type}
    (run_command : argv -> World -> cmd_result * World)
    (cluster : string) (location : gmap string string) (w : World) :
  NoDup (emitted (run (create_and_move_buckets run_command cluster location) w).2).
Proof.
  unfold run. rewrite create_and_move_buckets_emitted. simpl.
  pose proof (NoDup_present_among location _ NoDup_crush_bucket_types) as Hnd.
  pose proof (present_among_recognised location crush_bucket_types) as Hrec.
  fold (present_levels location) in Hnd, Hrec.
  apply (NoDup_split_filter (is_subcommand "move")).
  - rewrite moves_of_spec_commands.
    destruct (present_levels location) as [|p ps]; [constructor|].
    cbn [tail]. cbn [fmap list_fmap] in Hnd.
    apply NoDup_cons in Hnd as [_ Hnd]. apply Forall_cons in Hrec as [_ Hrec].
    by apply NoDup_moves.
  - rewrite <- chain_spec_commands, filter_not_move_chain.
    by apply NoDup_add_buckets.
Qed.
